(** * Student portal: the in-memory student manager of [main.go]

    A shallow embedding of [InMemoryStudentManager] and its methods
    ([Login], [Register], [GetStudyProgram], [ModifyStudent],
    [ChangeStudyProgram], [ImportStudents], [SubmitAssignments],
    [GetStudents]) together with the properties of the store, of the login
    guard, of the import pipeline and of the worker pool. *)

From Stdlib Require Import ZArith List Permutation Lia.
From stdpp Require Import base strings pretty list gmap fin_maps.

Local Open Scope Z_scope.

(** ** Data model *)

(** [model.Student]: three string fields. *)
Record Student := mkStudent {
  ID : string;
  Name : string;
  StudyProgram : string
}.

(** A Go [error] built by [fmt.Errorf] is observed through its message. *)
Definition error := string.

(** The pair [(string, error)] returned by the methods: either a message
    with a nil error, or the empty message with an error. *)
Inductive result :=
| Ok (msg : string)
| Err (err : error).

(** [InMemoryStudentManager]. The embedded [sync.Mutex] is the boolean [mu],
    true while the mutex is held. *)
Record InMemoryStudentManager := mkManager {
  mu : bool;
  students : list Student;
  studentStudyPrograms : gmap string string;
  failedLoginAttempts : gmap string Z
}.

(** Go's [int] is 64 bits wide here; [wrap64] is its wrap-around. *)
Definition wrap64 (z : Z) : Z := (z + 2 ^ 63) mod 2 ^ 64 - 2 ^ 63.

Definition int_range (z : Z) : Prop := - 2 ^ 63 <= z < 2 ^ 63.

(** Reading a missing key of a Go map gives the zero value. *)
Definition attempts (sm : InMemoryStudentManager) (id : string) : Z :=
  default 0 (failedLoginAttempts sm !! id).

Definition programName (sm : InMemoryStudentManager) (code : string) : string :=
  default "" (studentStudyPrograms sm !! code).

(** Every counter of the map is a Go [int]. *)
Definition counters_ok (sm : InMemoryStudentManager) : Prop :=
  map_Forall (fun _ z => int_range z) (failedLoginAttempts sm).

(** ** Error messages *)

Definition ErrLoginEmptyID : error := "Login gagal: ID tidak boleh kosong".
Definition ErrLoginEmptyName : error := "Login gagal: Nama tidak boleh kosong".
Definition ErrLockedOut : error := "Login gagal: Batas maksimum login terlampaui".
Definition ErrAuthenticationFailed : error :=
  "Login gagal: data mahasiswa tidak ditemukan".
Definition ErrInvalidInput : error := "ID, Name or StudyProgram is undefined!".
Definition ErrUnknownProgram (studyProgram : string) : error :=
  "Study program " +:+ studyProgram +:+ " is not found".
Definition ErrDuplicateID : error := "Registrasi gagal: id sudah digunakan".
Definition ErrProgramNotFound : error := "program studi tidak ditemukan".
Definition ErrNotFound : error := "Mahasiswa tidak ditemukan".
Definition ErrInvalidProgram : error := "program studi tidak valid".

(** ** Construction and the mutex *)

Definition NewInMemoryStudentManager : InMemoryStudentManager :=
  {| mu := false;
     students :=
       [ mkStudent "A12345" "Aditira" "TI";
         mkStudent "B21313" "Dito" "TK";
         mkStudent "A34555" "Afis" "MI" ];
     studentStudyPrograms :=
       <["TI" := "Teknik Informatika"]>
       (<["TK" := "Teknik Komputer"]>
       (<["SI" := "Sistem Informasi"]>
       (<["MI" := "Manajemen Informasi"]> ∅)));
     failedLoginAttempts := ∅ |}.

Definition set_mu (b : bool) (sm : InMemoryStudentManager) :=
  {| mu := b;
     students := students sm;
     studentStudyPrograms := studentStudyPrograms sm;
     failedLoginAttempts := failedLoginAttempts sm |}.

Definition set_students (l : list Student) (sm : InMemoryStudentManager) :=
  {| mu := mu sm;
     students := l;
     studentStudyPrograms := studentStudyPrograms sm;
     failedLoginAttempts := failedLoginAttempts sm |}.

Definition set_attempts (id : string) (n : Z) (sm : InMemoryStudentManager) :=
  {| mu := mu sm;
     students := students sm;
     studentStudyPrograms := studentStudyPrograms sm;
     failedLoginAttempts := <[id := n]> (failedLoginAttempts sm) |}.

(** [sm.Lock()]: a caller that finds the mutex held does not proceed
    ([None]); otherwise it holds the mutex. *)
Definition Lock (sm : InMemoryStudentManager) : option InMemoryStudentManager :=
  if mu sm then None else Some (set_mu true sm).

(** [sm.Unlock()], run by [defer] when the method returns. *)
Definition Unlock (sm : InMemoryStudentManager) : InMemoryStudentManager :=
  set_mu false sm.

(** A method whose body runs between [sm.Lock()] and the deferred
    [sm.Unlock()]. *)
Definition locked {A : Type}
    (body : InMemoryStudentManager -> A * InMemoryStudentManager)
    (sm : InMemoryStudentManager) : option (A * InMemoryStudentManager) :=
  match Lock sm with
  | None => None
  | Some sm1 => let '(a, sm2) := body sm1 in Some (a, Unlock sm2)
  end.

(** ** GetStudents *)

Definition GetStudents (sm : InMemoryStudentManager)
  : option (list Student * InMemoryStudentManager) :=
  locked (fun sm1 => (students sm1, sm1)) sm.

(** ** Login *)

(** [sm.failedLoginAttempts[id]++] *)
Definition incrAttempts (id : string) (sm : InMemoryStudentManager) :=
  set_attempts id (wrap64 (attempts sm id + 1)) sm.

(** [attempts, exists := sm.failedLoginAttempts[id]; exists && attempts >= 3] *)
Definition lockedOut (sm : InMemoryStudentManager) (id : string) : bool :=
  match failedLoginAttempts sm !! id with
  | Some a => bool_decide (3 <= a)
  | None => false
  end.

Definition loginMessage (sm : InMemoryStudentManager) (student : Student) : string :=
  "Login berhasil: Selamat datang " +:+ Name student
    +:+ "! Kamu terdaftar di program studi: "
    +:+ programName sm (StudyProgram student).

(** The [range sm.students] loop of [Login] and the increment after it. *)
Fixpoint Login_loop (sm : InMemoryStudentManager) (id name : string)
    (l : list Student) : result * InMemoryStudentManager :=
  match l with
  | [] => (Err ErrAuthenticationFailed, incrAttempts id sm)
  | student :: rest =>
      if decide (ID student = id) then
        if decide (Name student = name) then
          (Ok (loginMessage sm student), set_attempts id 0 sm)
        else (Err ErrAuthenticationFailed, incrAttempts id sm)
      else Login_loop sm id name rest
  end.

Definition Login_body (id name : string) (sm : InMemoryStudentManager)
  : result * InMemoryStudentManager :=
  if decide (id = "") then (Err ErrLoginEmptyID, sm)
  else if decide (name = "") then (Err ErrLoginEmptyName, sm)
  else if lockedOut sm id then (Err ErrLockedOut, sm)
  else Login_loop sm id name (students sm).

Definition Login (sm : InMemoryStudentManager) (id name : string)
  : option (result * InMemoryStudentManager) :=
  locked (Login_body id name) sm.

(** ** Register: no [sm.Lock()] in this method *)

(** The [range sm.students] loop of [Register]: is [id] already used? *)
Fixpoint idUsed (id : string) (l : list Student) : bool :=
  match l with
  | [] => false
  | student :: rest => if decide (ID student = id) then true else idUsed id rest
  end.

Definition registerMessage (newStudent : Student) : string :=
  "Registrasi berhasil: " +:+ Name newStudent
    +:+ " (" +:+ StudyProgram newStudent +:+ ")".

Definition Register (sm : InMemoryStudentManager) (id name studyProgram : string)
  : result * InMemoryStudentManager :=
  if decide (id = "" \/ name = "" \/ studyProgram = "") then
    (Err ErrInvalidInput, sm)
  else
    match studentStudyPrograms sm !! studyProgram with
    | None => (Err (ErrUnknownProgram studyProgram), sm)
    | Some _ =>
        if idUsed id (students sm) then (Err ErrDuplicateID, sm)
        else
          let newStudent := mkStudent id name studyProgram in
          (Ok (registerMessage newStudent),
           set_students (students sm ++ [newStudent]) sm)
    end.

(** ** GetStudyProgram: no [sm.Lock()] in this method *)

Definition GetStudyProgram (sm : InMemoryStudentManager) (code : string)
  : result * InMemoryStudentManager :=
  match studentStudyPrograms sm !! code with
  | Some program => (Ok program, sm)
  | None => (Err ErrProgramNotFound, sm)
  end.

(** ** ModifyStudent and ChangeStudyProgram *)

(** [model.StudentModifier], a function from a pointer to a [Student] to an
    [error]: the student the pointer refers to after the call, and the error
    ([None] for nil). *)
Definition StudentModifier := Student -> Student * option error.

Definition modifyMessage : string := "Program studi mahasiswa berhasil diubah.".

(** The [range sm.students] loop of [ModifyStudent]: [fn] runs on
    [&sm.students[i]] for the first [i] whose name matches, and the method
    returns there. *)
Fixpoint ModifyStudent_loop (name : string) (fn : StudentModifier)
    (l : list Student) : result * list Student :=
  match l with
  | [] => (Err ErrNotFound, [])
  | student :: rest =>
      if decide (Name student = name) then
        let '(student', err) := fn student in
        (match err with Some e => Err e | None => Ok modifyMessage end,
         student' :: rest)
      else
        let '(r, rest') := ModifyStudent_loop name fn rest in
        (r, student :: rest')
  end.

Definition ModifyStudent_body (name : string) (fn : StudentModifier)
    (sm : InMemoryStudentManager) : result * InMemoryStudentManager :=
  let '(r, l) := ModifyStudent_loop name fn (students sm) in
  (r, set_students l sm).

Definition ModifyStudent (sm : InMemoryStudentManager) (name : string)
    (fn : StudentModifier) : option (result * InMemoryStudentManager) :=
  locked (ModifyStudent_body name fn) sm.

(** The closure returned by [sm.ChangeStudyProgram(programStudi)]. *)
Definition ChangeStudyProgram (sm : InMemoryStudentManager)
    (programStudi : string) : StudentModifier :=
  fun s =>
    match studentStudyPrograms sm !! programStudi with
    | None => (s, Some ErrInvalidProgram)
    | Some _ => (mkStudent (ID s) (Name s) programStudi, None)
    end.

(** ** ReadStudentsFromCSV *)

(** One call of [reader.Read()] before [io.EOF]: a record or an error
    (with [FieldsPerRecord = 3] the reader reports a row of another arity as
    an error). *)
Inductive csvRead :=
| Row (record : list string)
| ReadError (err : error).

(** What [os.Open] and the csv reader give for a file name: the error of
    [os.Open], or the reads of the file up to [io.EOF]. *)
Definition FileSystem := string -> error + list csvRead.

Fixpoint joinFields (record : list string) : string :=
  match record with
  | [] => ""
  | [f] => f
  | f :: rest => f +:+ " " +:+ joinFields rest
  end.

(** [fmt.Errorf("record is incomplete: %v", record)] *)
Definition ErrIncomplete (record : list string) : error :=
  "record is incomplete: [" +:+ joinFields record +:+ "]".

(** The read loop, with the slice [students] built so far. *)
Fixpoint ReadStudents_loop (reads : list csvRead) (students : list Student)
  : error + list Student :=
  match reads with
  | [] => inr students
  | ReadError err :: _ => inl err
  | Row record :: rest =>
      match record with
      | [f0; f1; f2] =>
          ReadStudents_loop rest (students ++ [mkStudent f0 f1 f2])
      | _ => inl (ErrIncomplete record)
      end
  end.

Definition ReadStudentsFromCSV (fs : FileSystem) (filename : string)
  : error + list Student :=
  match fs filename with
  | inl err => inl err
  | inr reads => ReadStudents_loop reads []
  end.

(** ** ImportStudents *)

(** The batches sent on [studentsChan]: one per file name whose read
    returned a nil error, here in the order of [filenames]. *)
Fixpoint sentBatches (fs : FileSystem) (filenames : list string)
  : list (list Student) :=
  match filenames with
  | [] => []
  | f :: rest =>
      match ReadStudentsFromCSV fs f with
      | inr students => students :: sentBatches fs rest
      | inl _ => sentBatches fs rest
      end
  end.

(** The inner loop of the consumer: [Register] each student of a batch,
    returning at the first error. *)
Fixpoint ImportStudents_batch (sm : InMemoryStudentManager)
    (batch : list Student) : option error * InMemoryStudentManager :=
  match batch with
  | [] => (None, sm)
  | student :: rest =>
      match Register sm (ID student) (Name student) (StudyProgram student) with
      | (Err err, sm') => (Some err, sm')
      | (Ok _, sm') => ImportStudents_batch sm' rest
      end
  end.

(** The outer loop, [for students := range studentsChan], over the batches
    in the order they are received. *)
Fixpoint ImportStudents_consume (sm : InMemoryStudentManager)
    (received : list (list Student)) : option error * InMemoryStudentManager :=
  match received with
  | [] => (None, sm)
  | batch :: rest =>
      match ImportStudents_batch sm batch with
      | (Some err, sm') => (Some err, sm')
      | (None, sm') => ImportStudents_consume sm' rest
      end
  end.

(** [ImportStudents]: the reader goroutines run in parallel and send on an
    unbuffered channel, so the batches are received in any order. *)
Definition ImportStudents (fs : FileSystem) (sm : InMemoryStudentManager)
    (filenames : list string)
    (out : option error * InMemoryStudentManager) : Prop :=
  exists received,
    Permutation received (sentBatches fs filenames) /\
    ImportStudents_consume sm received = out.

(** ** Sequences of calls on one manager *)

Inductive call :=
| CallLogin (id name : string)
| CallRegister (id name studyProgram : string)
| CallGetStudyProgram (code : string)
| CallModifyStudent (name programStudi : string)
| CallImportStudents (received : list (list Student))
| CallGetStudents.

(** The manager after a call; [None] when the call waits on the mutex.
    [CallModifyStudent name p] is
    [sm.ModifyStudent(name, sm.ChangeStudyProgram(p))]. *)
Definition exec (sm : InMemoryStudentManager) (c : call)
  : option InMemoryStudentManager :=
  match c with
  | CallLogin id name => snd <$> Login sm id name
  | CallRegister id name studyProgram => Some (snd (Register sm id name studyProgram))
  | CallGetStudyProgram code => Some (snd (GetStudyProgram sm code))
  | CallModifyStudent name programStudi =>
      snd <$> ModifyStudent sm name (ChangeStudyProgram sm programStudi)
  | CallImportStudents received => Some (snd (ImportStudents_consume sm received))
  | CallGetStudents => snd <$> GetStudents sm
  end.

Fixpoint run (sm : InMemoryStudentManager) (cs : list call)
  : option InMemoryStudentManager :=
  match cs with
  | [] => Some sm
  | c :: rest =>
      match exec sm c with
      | None => None
      | Some sm' => run sm' rest
      end
  end.

(** ** SubmitAssignments: the worker pool *)

(** [workerCount := 4] *)
Definition workerCount : nat := 4.

(** The content of one message on [results]:
    ["Worker %d: Finished assignment %d"]. *)
Record JobResult := mkJobResult {
  worker : nat;
  assignment : nat
}.

Definition resultMessage (r : JobResult) : string :=
  "Worker " +:+ pretty (worker r) +:+ ": Finished assignment "
    +:+ pretty (assignment r).

(** What [SubmitAssignments] prints, line by line. *)
Inductive outputLine :=
| ResultLine (r : JobResult)
| TookLine (numAssignments : nat) (elapsed : Z)
| WarnSlow
| WarnFast.

(** Where a worker goroutine stands. *)
Inductive workerState :=
| Waiting
| Processing (assignment : nat)
| Sending (assignment : nat)
| Exited.

(** Where the calling goroutine stands: in the loop [jobs <- i] with
    counter [i]; after [close(jobs)], in [for result := range results]; or
    returned. *)
Inductive mainState :=
| Filling (i : nat)
| Draining
| Returned.

(** [jobs] is the content of the buffered channel, [workers] has the state
    of worker [w] at index [w - 1], [resultsClosed] is set by the goroutine
    that waits on the wait group, [units] counts the calls of
    [SubmitAssignmentLongProcess]. *)
Record poolState := mkPool {
  main : mainState;
  jobs : list nat;
  workers : list workerState;
  resultsClosed : bool;
  units : nat;
  stdout : list outputLine
}.

(** The state once the four workers are started. A negative
    [numAssignments] makes [make(chan int, numAssignments)] panic, so the
    number of assignments is a natural number here. *)
Definition SubmitAssignments_init : poolState :=
  {| main := Filling 1;
     jobs := [];
     workers := replicate workerCount Waiting;
     resultsClosed := false;
     units := 0;
     stdout := [] |}.

(** Durations are in nanoseconds. *)
Definition millisecond : Z := 1000000.

(** The lines printed after the results are drained. *)
Definition timingLines (numAssignments : nat) (elapsed : Z) : list outputLine :=
  TookLine numAssignments elapsed ::
  (if bool_decide (150 * millisecond < elapsed) then [WarnSlow]
   else if bool_decide (elapsed < 110 * millisecond) then [WarnFast]
   else []).

Definition set_worker (w : nat) (ws : workerState) (s : poolState) : poolState :=
  {| main := main s; jobs := jobs s; workers := <[w := ws]> (workers s);
     resultsClosed := resultsClosed s; units := units s; stdout := stdout s |}.

(** One step of one goroutine of [SubmitAssignments numAssignments]. *)
Inductive pool_step (numAssignments : nat) : poolState -> poolState -> Prop :=
| step_send s i :
    main s = Filling i ->
    (i <= numAssignments)%nat ->
    (length (jobs s) < numAssignments)%nat ->
    pool_step numAssignments s
      {| main := Filling (S i); jobs := jobs s ++ [i]; workers := workers s;
         resultsClosed := resultsClosed s; units := units s;
         stdout := stdout s |}
| step_close s i :
    main s = Filling i ->
    (numAssignments < i)%nat ->
    pool_step numAssignments s
      {| main := Draining; jobs := jobs s; workers := workers s;
         resultsClosed := resultsClosed s; units := units s;
         stdout := stdout s |}
| step_receive s w j rest :
    workers s !! w = Some Waiting ->
    jobs s = j :: rest ->
    pool_step numAssignments s
      {| main := main s; jobs := rest;
         workers := <[w := Processing j]> (workers s);
         resultsClosed := resultsClosed s; units := units s;
         stdout := stdout s |}
| step_exit s w :
    workers s !! w = Some Waiting ->
    jobs s = [] ->
    (forall i, main s <> Filling i) ->
    pool_step numAssignments s (set_worker w Exited s)
| step_process s w j :
    workers s !! w = Some (Processing j) ->
    pool_step numAssignments s
      {| main := main s; jobs := jobs s;
         workers := <[w := Sending j]> (workers s);
         resultsClosed := resultsClosed s; units := S (units s);
         stdout := stdout s |}
| step_result s w j :
    workers s !! w = Some (Sending j) ->
    main s = Draining ->
    pool_step numAssignments s
      {| main := main s; jobs := jobs s;
         workers := <[w := Waiting]> (workers s);
         resultsClosed := resultsClosed s; units := units s;
         stdout := stdout s ++ [ResultLine (mkJobResult (S w) j)] |}
| step_closeResults s :
    main s = Draining ->
    Forall (fun ws => ws = Exited) (workers s) ->
    resultsClosed s = false ->
    pool_step numAssignments s
      {| main := main s; jobs := jobs s; workers := workers s;
         resultsClosed := true; units := units s; stdout := stdout s |}
| step_return s elapsed :
    main s = Draining ->
    resultsClosed s = true ->
    pool_step numAssignments s
      {| main := Returned; jobs := jobs s; workers := workers s;
         resultsClosed := resultsClosed s; units := units s;
         stdout := stdout s ++ timingLines numAssignments elapsed |}.

(** Executions: any interleaving of the goroutines. *)
Inductive pool_steps (numAssignments : nat) : poolState -> poolState -> Prop :=
| pool_steps_refl s : pool_steps numAssignments s s
| pool_steps_snoc s1 s2 s3 :
    pool_steps numAssignments s1 s2 ->
    pool_step numAssignments s2 s3 ->
    pool_steps numAssignments s1 s3.

(** The results printed so far. *)
Definition resultOf (l : outputLine) : option JobResult :=
  match l with
  | ResultLine r => Some r
  | _ => None
  end.

Definition results (s : poolState) : list JobResult :=
  omap resultOf (stdout s).

(** The first worker that has not exited. *)
Fixpoint firstActive (w : nat) (l : list workerState) : option (nat * workerState) :=
  match l with
  | [] => None
  | Exited :: rest => firstActive (S w) rest
  | ws :: _ => Some (w, ws)
  end.

(** One scheduler among all: the caller fills the queue and closes it, then
    the first worker that can move does. *)
Definition pool_next (numAssignments : nat) (elapsed : Z) (s : poolState)
  : option poolState :=
  match main s with
  | Filling i =>
      if decide (i <= numAssignments)%nat then
        if decide (length (jobs s) < numAssignments)%nat then
          Some {| main := Filling (S i); jobs := jobs s ++ [i];
                  workers := workers s; resultsClosed := resultsClosed s;
                  units := units s; stdout := stdout s |}
        else None
      else
        Some {| main := Draining; jobs := jobs s; workers := workers s;
                resultsClosed := resultsClosed s; units := units s;
                stdout := stdout s |}
  | Draining =>
      match firstActive 0 (workers s) with
      | Some (w, Waiting) =>
          match jobs s with
          | j :: rest =>
              Some {| main := main s; jobs := rest;
                      workers := <[w := Processing j]> (workers s);
                      resultsClosed := resultsClosed s; units := units s;
                      stdout := stdout s |}
          | [] => Some (set_worker w Exited s)
          end
      | Some (w, Processing j) =>
          Some {| main := main s; jobs := jobs s;
                  workers := <[w := Sending j]> (workers s);
                  resultsClosed := resultsClosed s; units := S (units s);
                  stdout := stdout s |}
      | Some (w, Sending j) =>
          Some {| main := main s; jobs := jobs s;
                  workers := <[w := Waiting]> (workers s);
                  resultsClosed := resultsClosed s; units := units s;
                  stdout := stdout s ++ [ResultLine (mkJobResult (S w) j)] |}
      | Some (_, Exited) => None
      | None =>
          if resultsClosed s then
            Some {| main := Returned; jobs := jobs s; workers := workers s;
                    resultsClosed := resultsClosed s; units := units s;
                    stdout := stdout s ++ timingLines numAssignments elapsed |}
          else
            Some {| main := main s; jobs := jobs s; workers := workers s;
                    resultsClosed := true; units := units s;
                    stdout := stdout s |}
      end
  | Returned => None
  end.

(** [fuel] steps of that scheduler. *)
Fixpoint pool_run (numAssignments : nat) (elapsed : Z) (fuel : nat)
    (s : poolState) : poolState :=
  match fuel with
  | O => s
  | S fuel' =>
      match pool_next numAssignments elapsed s with
      | Some s' => pool_run numAssignments elapsed fuel' s'
      | None => s
      end
  end.

(** The jobs and where they are: not yet sent, in the queue, with a worker. *)
Definition unsent (numAssignments : nat) (m : mainState) : list nat :=
  match m with
  | Filling i => seq i (S numAssignments - i)
  | _ => []
  end.

Definition held (ws : workerState) : option nat :=
  match ws with
  | Processing j | Sending j => Some j
  | _ => None
  end.

(** A measure that every step decreases by one. *)
Definition workerWeight (ws : workerState) : nat :=
  match ws with
  | Waiting => 1
  | Processing _ => 3
  | Sending _ => 2
  | Exited => 0
  end.

Definition mainWeight (numAssignments : nat) (m : mainState) : nat :=
  match m with
  | Filling i => 4 * (S numAssignments - i) + 2
  | Draining => 1
  | Returned => 0
  end.

Definition poolWeight (numAssignments : nat) (s : poolState) : nat :=
  (mainWeight numAssignments (main s) + 3 * length (jobs s)
   + sum_list_with workerWeight (workers s)
   + (if resultsClosed s then 0 else 1))%nat.

(** ** Definitions used to state the properties *)

(** The first record of [l] whose ID is [id]. *)
Definition firstWithID (id : string) (l : list Student) : option Student :=
  List.find (fun st => bool_decide (ID st = id)) l.

(** The manager once [sm.students] holds [l] more records at its end. *)
Definition withRegistered (l : list Student) (sm : InMemoryStudentManager)
  : InMemoryStudentManager :=
  set_students (students sm ++ l) sm.

(** A method body that neither reads nor writes the mutex. *)
Definition mu_blind {A : Type}
    (body : InMemoryStudentManager -> A * InMemoryStudentManager) : Prop :=
  forall b sm, body (set_mu b sm) = (fst (body sm), set_mu b (snd (body sm))).

(** The seeded manager after three failed logins for ["A12345"]. *)
Definition threeFailures : list call :=
  [CallLogin "A12345" "WrongName"; CallLogin "A12345" "WrongName";
   CallLogin "A12345" "WrongName"].

Definition lockedSeed : InMemoryStudentManager :=
  set_attempts "A12345" 3 NewInMemoryStudentManager.

(** The seeded manager while another goroutine holds the mutex. *)
Definition heldSeed : InMemoryStudentManager :=
  set_mu true NewInMemoryStudentManager.

(** What holds of the manager between the calls of a sequential caller. *)
Definition idle_unique (sm : InMemoryStudentManager) : Prop :=
  mu sm = false /\ NoDup (map ID (students sm)).

(** A read that makes [ReadStudentsFromCSV] fail: an error of the reader
    or a record that has not three fields. *)
Definition malformed (r : csvRead) : Prop :=
  match r with
  | ReadError _ => True
  | Row record => length record <> 3%nat
  end.

(** Three sources: one with a malformed second row, one whose second record
    has the id of a seeded student, one that cannot be opened. *)
Definition demoFiles : FileSystem :=
  fun filename =>
    if decide (filename = "a.csv") then
      inr [Row ["C00001"; "Cici"; "SI"]; Row ["C00002"; "Caca"]]
    else if decide (filename = "b.csv") then
      inr [Row ["D00001"; "Dodi"; "TI"]; Row ["A12345"; "Dup"; "TI"];
           Row ["E00001"; "Evi"; "MI"]]
    else inl "open: no such file or directory".

(** Every job is in one place: not yet sent, in the queue, with a worker,
    or printed. *)
Definition accounted (numAssignments : nat) (s : poolState) : list nat :=
  unsent numAssignments (main s) ++ jobs s ++ omap held (workers s)
    ++ map assignment (results s).

(** The units of work done whose result is not yet printed. *)
Definition doneHeld (ws : workerState) : nat :=
  match ws with
  | Sending _ => 1
  | _ => 0
  end.

(** What holds in every state of an execution of the pool. *)
Record pool_inv (numAssignments : nat) (s : poolState) : Prop := mkPoolInv {
  inv_jobs : accounted numAssignments s ≡ₚ seq 1 numAssignments;
  inv_workers : length (workers s) = workerCount;
  inv_exited :
    Exited ∈ workers s -> jobs s = [] /\ forall i, main s <> Filling i;
  inv_closed :
    resultsClosed s = true -> Forall (fun ws => ws = Exited) (workers s);
  inv_returned : main s = Returned -> resultsClosed s = true;
  inv_units :
    units s = (sum_list_with doneHeld (workers s) + length (results s))%nat
}.

(** ** Definitions for the further properties *)

(** The row the csv reader yields for a student. *)
Definition rowOf (st : Student) : csvRead :=
  Row [ID st; Name st; StudyProgram st].


(** The student of a record of three fields. *)
Definition studentOf (r : csvRead) : option Student :=
  match r with
  | Row [f0; f1; f2] => Some (mkStudent f0 f1 f2)
  | _ => None
  end.

(** A record that [Register] accepts on a catalog, its ID apart. *)
Definition validStudent (catalog : gmap string string) (st : Student) : Prop :=
  ID st <> "" /\ Name st <> "" /\ StudyProgram st <> "" /\
  is_Some (catalog !! StudyProgram st).

(** Every record of the collection is valid on the catalog, which has no
    empty code. *)
Definition records_valid (sm : InMemoryStudentManager) : Prop :=
  studentStudyPrograms sm !! "" = None /\
  Forall (validStudent (studentStudyPrograms sm)) (students sm).

(** Every counter of the map is between 0 and 3. *)
Definition counters_bounded (sm : InMemoryStudentManager) : Prop :=
  map_Forall (fun _ z => 0 <= z <= 3) (failedLoginAttempts sm).

(** A name that is not the name of the record of [id]. *)
Definition wrongName (sm : InMemoryStudentManager) (id name : string) : Prop :=
  name <> "" /\
  match firstWithID id (students sm) with
  | Some st => Name st <> name
  | None => True
  end.

(** Two sources that read well: two records and one record. *)
Definition cleanFiles : FileSystem :=
  fun filename =>
    if decide (filename = "x.csv") then
      inr [Row ["F00001"; "Fajar"; "TI"]; Row ["G00001"; "Gita"; "SI"]]
    else if decide (filename = "y.csv") then
      inr [Row ["H00001"; "Hana"; "MI"]]
    else inl "open: no such file or directory".

(** More of what holds in every state of an execution of the pool: where
    the output stands, and the order of the queue. *)
Record pool_output (numAssignments : nat) (s : poolState) : Prop := mkPoolOutput {
  out_workers :
    Forall (fun r => (1 <= worker r <= workerCount)%nat) (results s);
  out_filling : forall i, main s = Filling i -> stdout s = [];
  out_running : main s <> Returned -> stdout s = map ResultLine (results s);
  out_returned :
    main s = Returned ->
    exists elapsed,
      stdout s = map ResultLine (results s) ++ timingLines numAssignments elapsed;
  out_queue :
    exists a, jobs s ++ unsent numAssignments (main s)
              = seq a (S numAssignments - a)
}.

(** * Properties *)

(** ** The mutex *)

Lemma set_mu_id sm : set_mu (mu sm) sm = sm.
Proof. by destruct sm. Qed.

Lemma mu_blind_mu {A} (body : InMemoryStudentManager -> A * InMemoryStudentManager) sm :
  mu_blind body -> mu (snd (body sm)) = mu sm.
Proof.
  intros Hb. specialize (Hb (mu sm) sm). rewrite set_mu_id in Hb.
  rewrite Hb at 1. reflexivity.
Qed.

(** With the mutex free, a locking method runs its body and leaves the mutex
    free. *)
Lemma locked_free {A} (body : InMemoryStudentManager -> A * InMemoryStudentManager) sm :
  mu_blind body -> mu sm = false -> locked body sm = Some (body sm).
Proof.
  intros Hb Hmu. unfold locked, Lock. rewrite Hmu, Hb. cbn [fst snd].
  unfold Unlock.
  assert (set_mu false (set_mu true (snd (body sm))) = snd (body sm)) as ->.
  { pose proof (mu_blind_mu body sm Hb) as Hm. rewrite Hmu in Hm.
    destruct (snd (body sm)); cbn in *; by subst. }
  by destruct (body sm).
Qed.

(** With the mutex held, a locking method does not proceed. *)
Lemma locked_held {A} (body : InMemoryStudentManager -> A * InMemoryStudentManager) sm :
  mu sm = true -> locked body sm = None.
Proof. intros Hmu. unfold locked, Lock. by rewrite Hmu. Qed.

(** ** Login *)

Lemma Login_loop_first sm id name l :
  Login_loop sm id name l =
  match firstWithID id l with
  | Some st =>
      if decide (Name st = name) then
        (Ok (loginMessage sm st), set_attempts id 0 sm)
      else (Err ErrAuthenticationFailed, incrAttempts id sm)
  | None => (Err ErrAuthenticationFailed, incrAttempts id sm)
  end.
Proof.
  induction l as [|st l IH]; [done|]. cbn.
  destruct (decide (ID st = id)) as [He|Hne].
  - by rewrite bool_decide_eq_true_2.
  - by rewrite bool_decide_eq_false_2.
Qed.

Lemma Login_body_blind id name : mu_blind (Login_body id name).
Proof.
  intros b sm. unfold Login_body.
  repeat case_decide; try done.
  unfold lockedOut. cbn [failedLoginAttempts set_mu].
  destruct (failedLoginAttempts sm !! id) as [a|]; [case_bool_decide; [done|] |];
    rewrite !Login_loop_first; cbn [students set_mu];
    destruct (firstWithID id (students sm)); repeat case_decide; done.
Qed.

Lemma Login_free sm id name :
  mu sm = false -> Login sm id name = Some (Login_body id name sm).
Proof. apply locked_free, Login_body_blind. Qed.

Lemma lockedOut_attempts sm id : lockedOut sm id = bool_decide (3 <= attempts sm id).
Proof.
  unfold lockedOut, attempts.
  destruct (failedLoginAttempts sm !! id); [done|].
  cbn. symmetry. apply bool_decide_eq_false_2. lia.
Qed.

Lemma wrap64_succ z : int_range z -> z < 3 -> wrap64 (z + 1) = z + 1.
Proof.
  unfold int_range, wrap64. intros [Hlo Hhi] H3.
  rewrite Z.mod_small; lia.
Qed.

Lemma attempts_set_eq id n sm : attempts (set_attempts id n sm) id = n.
Proof. unfold attempts. cbn. by rewrite lookup_insert_eq. Qed.

Lemma attempts_set_ne id id' n sm :
  id <> id' -> attempts (set_attempts id n sm) id' = attempts sm id'.
Proof. intros Hne. unfold attempts. cbn. by rewrite lookup_insert_ne. Qed.

Lemma attempts_range sm id : counters_ok sm -> int_range (attempts sm id).
Proof.
  intros Hok. unfold attempts.
  destruct (failedLoginAttempts sm !! id) as [a|] eqn:Ha; cbn.
  - by apply (Hok id a).
  - unfold int_range. lia.
Qed.

(** C10: with an empty id or an empty name [Login] fails with the
    invalid-input error of the empty field and leaves the whole manager as it
    was (no counter is created or incremented); the test comes before the
    lockout test, so the error is never the lockout error, whatever the
    counter of [id] is. *)
Theorem Login_empty_input sm id name :
  mu sm = false ->
  id = "" \/ name = "" ->
  Login sm id name
  = Some (Err (if decide (id = "") then ErrLoginEmptyID else ErrLoginEmptyName), sm)
  /\ ErrLoginEmptyID <> ErrLockedOut
  /\ ErrLoginEmptyName <> ErrLockedOut.
Proof.
  intros Hmu Hempty. split; [|done].
  rewrite Login_free by done. unfold Login_body.
  destruct (decide (id = "")) as [->|Hid]; [done|].
  destruct Hempty as [?| ->]; done.
Qed.

Lemma Login_empty_input_witness :
  mu lockedSeed = false /\
  ("A12345" = "" \/ "" = "") /\
  lockedOut lockedSeed "A12345" = true /\
  Login lockedSeed "A12345" "" = Some (Err ErrLoginEmptyName, lockedSeed).
Proof.
  split; [reflexivity|]. split; [right; reflexivity|]. split; [reflexivity|].
  apply (Login_empty_input lockedSeed "A12345" ""); [reflexivity|right; reflexivity].
Defined.

(** C2: what [Login] does to the counters, outcome by outcome. An empty
    field or a locked-out id leaves the manager as it was; a success sets the
    counter of [id] to zero; an unknown id or a name that differs adds
    exactly one to the counter of [id]; the counters of the other ids, the
    records and the catalog are never changed. *)
Theorem Login_counters sm id name :
  mu sm = false ->
  counters_ok sm ->
  exists r sm',
    Login sm id name = Some (r, sm') /\
    students sm' = students sm /\
    studentStudyPrograms sm' = studentStudyPrograms sm /\
    (forall id', id' <> id ->
       failedLoginAttempts sm' !! id' = failedLoginAttempts sm !! id') /\
    ( ((id = "" \/ name = "") /\
       (r = Err ErrLoginEmptyID \/ r = Err ErrLoginEmptyName) /\ sm' = sm)
      \/
      (id <> "" /\ name <> "" /\ 3 <= attempts sm id /\
       r = Err ErrLockedOut /\ sm' = sm)
      \/
      (id <> "" /\ name <> "" /\ attempts sm id < 3 /\
       (exists st, firstWithID id (students sm) = Some st /\ Name st = name /\
                   r = Ok (loginMessage sm st)) /\
       attempts sm' id = 0)
      \/
      (id <> "" /\ name <> "" /\ attempts sm id < 3 /\
       (firstWithID id (students sm) = None \/
        exists st, firstWithID id (students sm) = Some st /\ Name st <> name) /\
       r = Err ErrAuthenticationFailed /\
       attempts sm' id = attempts sm id + 1) ).
Proof.
  intros Hmu Hok. rewrite Login_free by done. unfold Login_body.
  destruct (decide (id = "")) as [Hid|Hid].
  { eexists _, _. split; [done|]. repeat split; try done. left. tauto. }
  destruct (decide (name = "")) as [Hname|Hname].
  { eexists _, _. split; [done|]. repeat split; try done. left. tauto. }
  rewrite lockedOut_attempts. case_bool_decide as Hlock.
  { eexists _, _. split; [done|]. repeat split; try done. right; left. tauto. }
  assert (attempts sm id < 3) as Hlt by lia.
  assert (forall n id', id' <> id ->
            failedLoginAttempts (set_attempts id n sm) !! id'
            = failedLoginAttempts sm !! id') as Hother.
  { intros n id' Hne. cbn. by rewrite lookup_insert_ne. }
  assert (attempts (incrAttempts id sm) id = attempts sm id + 1) as Hincr.
  { unfold incrAttempts. rewrite attempts_set_eq.
    apply wrap64_succ; [by apply attempts_range | done]. }
  rewrite Login_loop_first.
  destruct (firstWithID id (students sm)) as [st|] eqn:Hfirst.
  - destruct (decide (Name st = name)) as [Hn|Hn].
    + eexists _, _. split; [done|]. repeat split; try done; [by apply Hother|].
      right; right; left. repeat split; try done; [by exists st|].
      apply attempts_set_eq.
    + eexists _, _. split; [done|]. repeat split; try done; [by apply Hother|].
      right; right; right. repeat split; try done. right. by exists st.
  - eexists _, _. split; [done|]. repeat split; try done; [by apply Hother|].
    right; right; right. repeat split; try done. by left.
Qed.

Lemma Login_counters_witness :
  mu NewInMemoryStudentManager = false /\
  counters_ok NewInMemoryStudentManager /\
  exists r sm',
    Login NewInMemoryStudentManager "A12345" "WrongName" = Some (r, sm') /\
    r = Err ErrAuthenticationFailed /\
    attempts sm' "A12345" = 1.
Proof.
  assert (counters_ok NewInMemoryStudentManager) as Hok.
  { intros k z Hk. vm_compute in Hk. discriminate Hk. }
  split; [reflexivity|]. split; [exact Hok|].
  destruct (Login_counters NewInMemoryStudentManager "A12345" "WrongName"
              eq_refl Hok) as (r & sm' & HL & _ & _ & _ & Hcases).
  exists r, sm'. split; [exact HL|].
  vm_compute in HL. injection HL as <- <-. split; reflexivity.
Defined.

(** C3: for non-empty, non-locked-out credentials the failure for an id that
    matches no record and the failure for an id whose record has another
    name are the same error value, [ErrAuthenticationFailed]. The record of
    an id is the first one with that id (the only one when ids are
    unique). *)
Theorem Login_failures_indistinguishable sm1 sm2 id1 name1 id2 name2 st :
  mu sm1 = false -> mu sm2 = false ->
  id1 <> "" -> name1 <> "" -> lockedOut sm1 id1 = false ->
  id2 <> "" -> name2 <> "" -> lockedOut sm2 id2 = false ->
  firstWithID id1 (students sm1) = None ->
  firstWithID id2 (students sm2) = Some st -> Name st <> name2 ->
  fst <$> Login sm1 id1 name1 = Some (Err ErrAuthenticationFailed) /\
  fst <$> Login sm2 id2 name2 = Some (Err ErrAuthenticationFailed).
Proof.
  intros Hmu1 Hmu2 Hid1 Hn1 Hl1 Hid2 Hn2 Hl2 Hnone Hsome Hdiff.
  rewrite !Login_free by done. unfold Login_body.
  rewrite !decide_False by done. rewrite Hl1, Hl2, !Login_loop_first.
  rewrite Hnone, Hsome. by rewrite decide_False.
Qed.

Lemma Login_failures_indistinguishable_witness :
  fst <$> Login NewInMemoryStudentManager "X99999" "Aditira"
  = fst <$> Login NewInMemoryStudentManager "A12345" "Someone".
Proof.
  destruct (Login_failures_indistinguishable
              NewInMemoryStudentManager NewInMemoryStudentManager
              "X99999" "Aditira" "A12345" "Someone"
              (mkStudent "A12345" "Aditira" "TI")) as [H1 H2];
    [ reflexivity | reflexivity | discriminate | discriminate | reflexivity
    | discriminate | discriminate | reflexivity | reflexivity | reflexivity
    | cbn; discriminate | ].
  rewrite H1, H2. reflexivity.
Defined.

(** ** Register *)

Lemma idUsed_true id l : idUsed id l = true <-> exists st, In st l /\ ID st = id.
Proof.
  induction l as [|x l IH]; cbn.
  - split; [done|]. by intros (? & [] & _).
  - destruct (decide (ID x = id)) as [He|Hne].
    + split; [|done]. intros _. exists x. auto.
    + rewrite IH. split.
      * intros (st & Hin & Hst). exists st. auto.
      * intros (st & [->|Hin] & Hst); [done|]. by exists st.
Qed.

Lemma idUsed_false id l : idUsed id l = false <-> ~ In id (map ID l).
Proof.
  rewrite <- not_true_iff_false, idUsed_true, in_map_iff.
  split; intros Hn (st & H1 & H2); apply Hn; exists st; auto.
Qed.

(** A call of [Register] that returns an error leaves the manager as it
    was; a call that succeeds appends one record. *)
Lemma Register_cases sm id name studyProgram :
  (exists err, Register sm id name studyProgram = (Err err, sm)) \/
  (~ In id (map ID (students sm)) /\
   Register sm id name studyProgram
   = (Ok (registerMessage (mkStudent id name studyProgram)),
      withRegistered [mkStudent id name studyProgram] sm)).
Proof.
  unfold Register. case_decide; [left; eauto|].
  destruct (studentStudyPrograms sm !! studyProgram); [|left; eauto].
  destruct (idUsed id (students sm)) eqn:Hused; [left; eauto|].
  right. split; [by apply idUsed_false|done].
Qed.

(** C4: [Register] fails with the invalid-input error when one of the three
    arguments is empty; otherwise with the unknown-program error when the
    program is not a key of the catalog; otherwise with the duplicate-id
    error when a record already has this id; otherwise it succeeds and the
    new record is appended at the end of the collection, which so grows by
    exactly one record, the rest of the manager being unchanged. On the
    seeded manager, [Register("Z00000","New Student","XX")] fails with the
    unknown-program error. *)
Theorem Register_spec sm id name studyProgram :
  ((id = "" \/ name = "" \/ studyProgram = "") ->
   Register sm id name studyProgram = (Err ErrInvalidInput, sm))
  /\
  (id <> "" -> name <> "" -> studyProgram <> "" ->
   studentStudyPrograms sm !! studyProgram = None ->
   Register sm id name studyProgram = (Err (ErrUnknownProgram studyProgram), sm))
  /\
  (id <> "" -> name <> "" -> studyProgram <> "" ->
   is_Some (studentStudyPrograms sm !! studyProgram) ->
   (exists st, In st (students sm) /\ ID st = id) ->
   Register sm id name studyProgram = (Err ErrDuplicateID, sm))
  /\
  (id <> "" -> name <> "" -> studyProgram <> "" ->
   is_Some (studentStudyPrograms sm !! studyProgram) ->
   (forall st, In st (students sm) -> ID st <> id) ->
   exists sm',
     Register sm id name studyProgram
     = (Ok (registerMessage (mkStudent id name studyProgram)), sm') /\
     students sm' = students sm ++ [mkStudent id name studyProgram] /\
     length (students sm') = S (length (students sm)) /\
     mu sm' = mu sm /\
     studentStudyPrograms sm' = studentStudyPrograms sm /\
     failedLoginAttempts sm' = failedLoginAttempts sm)
  /\
  Register NewInMemoryStudentManager "Z00000" "New Student" "XX"
  = (Err "Study program XX is not found", NewInMemoryStudentManager).
Proof.
  unfold Register. repeat split.
  - intros He. by rewrite decide_True.
  - intros H1 H2 H3 Hcat. rewrite decide_False by tauto. by rewrite Hcat.
  - intros H1 H2 H3 [v Hcat] Hdup. rewrite decide_False by tauto. rewrite Hcat.
    apply idUsed_true in Hdup. by rewrite Hdup.
  - intros H1 H2 H3 [v Hcat] Hfresh. rewrite decide_False by tauto. rewrite Hcat.
    assert (idUsed id (students sm) = false) as ->.
    { apply not_true_iff_false. rewrite idUsed_true.
      intros (st & Hin & Hst). by apply (Hfresh st). }
    eexists. split; [done|]. cbn. repeat split.
    rewrite length_app. cbn. lia.
Qed.

Lemma Register_spec_witness :
  exists sm',
    Register NewInMemoryStudentManager "Z00000" "New Student" "SI"
    = (Ok "Registrasi berhasil: New Student (SI)", sm') /\
    students sm'
    = students NewInMemoryStudentManager ++ [mkStudent "Z00000" "New Student" "SI"].
Proof.
  destruct (Register_spec NewInMemoryStudentManager "Z00000" "New Student" "SI")
    as (_ & _ & _ & Hok & _).
  destruct Hok as (sm' & HR & Hst & _);
    [discriminate | discriminate | discriminate
    | by exists "Sistem Informasi"
    | intros st [<-|[<-|[<-|[]]]]; cbn; discriminate
    | ].
  exists sm'. split; [exact HR | exact Hst].
Defined.

(** ** ModifyStudent *)

Lemma set_students_id sm : set_students (students sm) sm = sm.
Proof. by destruct sm. Qed.

Lemma ModifyStudent_body_blind name fn : mu_blind (ModifyStudent_body name fn).
Proof.
  intros b sm. unfold ModifyStudent_body. cbn [students set_mu].
  by destruct (ModifyStudent_loop name fn (students sm)).
Qed.

Lemma ModifyStudent_free sm name fn :
  mu sm = false ->
  ModifyStudent sm name fn = Some (ModifyStudent_body name fn sm).
Proof. apply locked_free, ModifyStudent_body_blind. Qed.

Lemma ModifyStudent_loop_none name fn l :
  (forall st, In st l -> Name st <> name) ->
  ModifyStudent_loop name fn l = (Err ErrNotFound, l).
Proof.
  induction l as [|x l IH]; intros Hno; cbn; [done|].
  rewrite decide_False by (apply Hno; by left).
  rewrite IH; [done|]. intros st Hin. apply Hno. by right.
Qed.

Lemma ModifyStudent_loop_first name fn pre st post :
  (forall x, In x pre -> Name x <> name) ->
  Name st = name ->
  ModifyStudent_loop name fn (pre ++ st :: post)
  = (match snd (fn st) with Some e => Err e | None => Ok modifyMessage end,
     pre ++ fst (fn st) :: post).
Proof.
  intros Hpre Hst. induction pre as [|x pre IH]; cbn.
  - rewrite decide_True by done. by destruct (fn st).
  - rewrite decide_False by (apply Hpre; by left).
    rewrite IH; [done|]. intros y Hin. apply Hpre. by right.
Qed.

Lemma ModifyStudent_loop_ids name fn l :
  (forall s, ID (fst (fn s)) = ID s) ->
  map ID (snd (ModifyStudent_loop name fn l)) = map ID l.
Proof.
  intros Hfn. induction l as [|x l IH]; cbn; [done|].
  case_decide.
  - specialize (Hfn x). destruct (fn x) as [x' e]. cbn in *. by rewrite Hfn.
  - destruct (ModifyStudent_loop name fn l) as [r l']. cbn in *. by rewrite IH.
Qed.

Lemma ChangeStudyProgram_ID sm programStudi s :
  ID (fst (ChangeStudyProgram sm programStudi s)) = ID s.
Proof. unfold ChangeStudyProgram. by destruct (_ !! _). Qed.

(** ** ImportStudents *)

Section RegisterPreserves.
Variable P : InMemoryStudentManager -> Prop.
Hypothesis Register_P :
  forall sm id name studyProgram,
    P sm -> P (snd (Register sm id name studyProgram)).

Lemma ImportStudents_batch_preserves batch :
  forall sm, P sm -> P (snd (ImportStudents_batch sm batch)).
Proof using Register_P.
  induction batch as [|st batch IH]; intros sm HP; cbn; [done|].
  pose proof (Register_P sm (ID st) (Name st) (StudyProgram st) HP) as HR.
  destruct (Register sm (ID st) (Name st) (StudyProgram st)) as [[msg|err] sm'];
    cbn in *; [by apply IH | done].
Qed.

Lemma ImportStudents_consume_preserves received :
  forall sm, P sm -> P (snd (ImportStudents_consume sm received)).
Proof using Register_P.
  induction received as [|batch received IH]; intros sm HP; cbn; [done|].
  pose proof (ImportStudents_batch_preserves batch sm HP) as HB.
  destruct (ImportStudents_batch sm batch) as [[err|] sm'];
    cbn in *; [done | by apply IH].
Qed.
End RegisterPreserves.

Lemma ImportStudents_batch_app sm l1 l2 :
  ImportStudents_batch sm (l1 ++ l2) =
  match ImportStudents_batch sm l1 with
  | (Some err, sm') => (Some err, sm')
  | (None, sm') => ImportStudents_batch sm' l2
  end.
Proof.
  revert sm. induction l1 as [|st l1 IH]; intros sm; cbn; [done|].
  destruct (Register sm (ID st) (Name st) (StudyProgram st)) as [[msg|err] sm'];
    [apply IH | done].
Qed.

(** The consumer registers the records of the received batches one after
    the other. *)
Lemma ImportStudents_consume_concat sm received :
  ImportStudents_consume sm received = ImportStudents_batch sm (concat received).
Proof.
  revert sm. induction received as [|batch received IH]; intros sm; cbn; [done|].
  rewrite ImportStudents_batch_app.
  destruct (ImportStudents_batch sm batch) as [[err|] sm']; [done | apply IH].
Qed.

Lemma withRegistered_nil sm : withRegistered [] sm = sm.
Proof. unfold withRegistered. rewrite app_nil_r. apply set_students_id. Qed.

Lemma withRegistered_app l1 l2 sm :
  withRegistered l2 (withRegistered l1 sm) = withRegistered (l1 ++ l2) sm.
Proof. unfold withRegistered, set_students. cbn. by rewrite <- app_assoc. Qed.

Lemma Register_ok sm id name studyProgram msg sm' :
  Register sm id name studyProgram = (Ok msg, sm') ->
  sm' = withRegistered [mkStudent id name studyProgram] sm.
Proof.
  destruct (Register_cases sm id name studyProgram) as [[err ->]|[_ ->]];
    congruence.
Qed.

Lemma Register_err sm id name studyProgram err sm' :
  Register sm id name studyProgram = (Err err, sm') -> sm' = sm.
Proof.
  destruct (Register_cases sm id name studyProgram) as [[e ->]|[_ ->]];
    congruence.
Qed.

Lemma ImportStudents_batch_ok batch :
  forall sm sm', ImportStudents_batch sm batch = (None, sm') ->
                 sm' = withRegistered batch sm.
Proof.
  induction batch as [|st batch IH]; intros sm sm' H; cbn in H.
  - rewrite withRegistered_nil. congruence.
  - destruct (Register sm (ID st) (Name st) (StudyProgram st))
      as [[msg|err] sm1] eqn:HR; [|done].
    apply Register_ok in HR. apply IH in H. subst.
    rewrite withRegistered_app. by destruct st.
Qed.

Lemma ImportStudents_batch_err batch :
  forall sm err sm', ImportStudents_batch sm batch = (Some err, sm') ->
    exists pre st post,
      batch = pre ++ st :: post /\
      ImportStudents_batch sm pre = (None, sm') /\
      Register sm' (ID st) (Name st) (StudyProgram st) = (Err err, sm').
Proof.
  induction batch as [|st batch IH]; intros sm err sm' H; cbn in H; [done|].
  destruct (Register sm (ID st) (Name st) (StudyProgram st))
    as [[msg|e] sm1] eqn:HR.
  - destruct (IH _ _ _ H) as (pre & st' & post & -> & Hpre & Hfail).
    exists (st :: pre), st', post. cbn. by rewrite HR.
  - injection H as -> ->. pose proof (Register_err _ _ _ _ _ _ HR) as ->.
    by exists [], st, batch.
Qed.

(** ** Sequences of calls *)

Lemma Login_body_frame id name sm :
  mu (snd (Login_body id name sm)) = mu sm /\
  students (snd (Login_body id name sm)) = students sm /\
  studentStudyPrograms (snd (Login_body id name sm)) = studentStudyPrograms sm /\
  (forall id', id' <> id ->
     failedLoginAttempts (snd (Login_body id name sm)) !! id'
     = failedLoginAttempts sm !! id').
Proof.
  unfold Login_body. repeat case_decide; try done.
  destruct (lockedOut sm id); [done|]. rewrite Login_loop_first.
  destruct (firstWithID id (students sm)); repeat case_decide; cbn;
    repeat split; intros; by rewrite lookup_insert_ne.
Qed.

Lemma Login_body_lockedOut id name sm :
  3 <= attempts sm id -> snd (Login_body id name sm) = sm.
Proof.
  intros Hlock. unfold Login_body. repeat case_decide; try done.
  rewrite lockedOut_attempts. by rewrite bool_decide_eq_true_2.
Qed.

Lemma Register_frame sm id name studyProgram :
  mu (snd (Register sm id name studyProgram)) = mu sm /\
  studentStudyPrograms (snd (Register sm id name studyProgram))
  = studentStudyPrograms sm /\
  failedLoginAttempts (snd (Register sm id name studyProgram))
  = failedLoginAttempts sm.
Proof.
  by destruct (Register_cases sm id name studyProgram) as [[err ->]|[_ ->]].
Qed.

Lemma Register_unique sm id name studyProgram :
  NoDup (map ID (students sm)) ->
  NoDup (map ID (students (snd (Register sm id name studyProgram)))).
Proof.
  intros Hnd.
  destruct (Register_cases sm id name studyProgram) as [[err ->]|[Hfresh ->]];
    [done|].
  cbn. rewrite map_app. cbn. apply NoDup_app. repeat split; [done | | ].
  - intros x Hx Hin. apply list_elem_of_In in Hx.
    apply list_elem_of_singleton in Hin. by subst.
  - apply NoDup_singleton.
Qed.

Lemma GetStudents_free sm :
  mu sm = false -> GetStudents sm = Some (students sm, sm).
Proof. intros Hmu. unfold GetStudents. by rewrite locked_free. Qed.

(** From a manager whose mutex is free a call returns and leaves the mutex
    free. *)
Lemma exec_free sm c :
  mu sm = false ->
  exists sm', exec sm c = Some sm' /\ mu sm' = false.
Proof.
  intros Hmu. destruct c; cbn.
  - rewrite Login_free by done. eexists. split; [done|].
    by rewrite (proj1 (Login_body_frame _ _ _)).
  - eexists. split; [done|]. by rewrite (proj1 (Register_frame _ _ _ _)).
  - eexists. split; [done|]. unfold GetStudyProgram. by destruct (_ !! _).
  - rewrite ModifyStudent_free by done. eexists. split; [done|].
    by rewrite (mu_blind_mu _ _ (ModifyStudent_body_blind _ _)).
  - eexists. split; [done|].
    apply (ImportStudents_consume_preserves (fun s => mu s = false)); [|done].
    intros s i n p Hs. by rewrite (proj1 (Register_frame _ _ _ _)).
  - rewrite GetStudents_free by done. by eexists.
Qed.

(** Every outcome of [ImportStudents] is the outcome of the consumer on some
    received batches, which is what [CallImportStudents] runs. *)
Lemma ImportStudents_as_call fs sm filenames out :
  ImportStudents fs sm filenames out ->
  exists received, exec sm (CallImportStudents received) = Some (snd out).
Proof. intros (received & _ & <-). by exists received. Qed.

(** No call lets two records share an ID. *)
Lemma exec_unique sm c sm' :
  idle_unique sm -> exec sm c = Some sm' -> idle_unique sm'.
Proof.
  intros [Hmu Hnd] Hexec.
  destruct (exec_free sm c Hmu) as (sm2 & Hexec2 & Hmu2).
  rewrite Hexec in Hexec2. injection Hexec2 as <-. split; [done|].
  destruct c; cbn in Hexec.
  - rewrite Login_free in Hexec by done. injection Hexec as <-.
    by rewrite (proj1 (proj2 (Login_body_frame _ _ _))).
  - injection Hexec as <-. by apply Register_unique.
  - injection Hexec as <-. unfold GetStudyProgram. by destruct (_ !! _).
  - rewrite ModifyStudent_free in Hexec by done. injection Hexec as <-.
    unfold ModifyStudent_body.
    pose proof (ModifyStudent_loop_ids name
                  (ChangeStudyProgram sm programStudi) (students sm)
                  (ChangeStudyProgram_ID sm programStudi)) as Hids.
    destruct (ModifyStudent_loop _ _ _) as [r l]. cbn in *. by rewrite Hids.
  - injection Hexec as <-.
    apply (ImportStudents_consume_preserves
             (fun s => NoDup (map ID (students s)))); [|done].
    intros s i n p Hs. by apply Register_unique.
  - rewrite GetStudents_free in Hexec by done. by injection Hexec as <-.
Qed.

(** No call changes the counter of a locked-out id. *)
Lemma exec_lockedOut sm c sm' id :
  mu sm = false -> 3 <= attempts sm id ->
  exec sm c = Some sm' -> attempts sm' id = attempts sm id.
Proof.
  intros Hmu Hlock Hexec. destruct c; cbn in Hexec.
  - rewrite Login_free in Hexec by done. injection Hexec as <-.
    destruct (decide (id0 = id)) as [->|Hne].
    + by rewrite Login_body_lockedOut.
    + unfold attempts.
      by rewrite (proj2 (proj2 (proj2 (Login_body_frame id0 name sm)))).
  - injection Hexec as <-. unfold attempts.
    by rewrite (proj2 (proj2 (Register_frame _ _ _ _))).
  - injection Hexec as <-. unfold GetStudyProgram. by destruct (_ !! _).
  - rewrite ModifyStudent_free in Hexec by done. injection Hexec as <-.
    unfold ModifyStudent_body. by destruct (ModifyStudent_loop _ _ _).
  - injection Hexec as <-. unfold attempts.
    assert (failedLoginAttempts (snd (ImportStudents_consume sm received))
            = failedLoginAttempts sm) as ->; [|done].
    apply (ImportStudents_consume_preserves
             (fun s => failedLoginAttempts s = failedLoginAttempts sm)); [|done].
    intros s i n p Hs. by rewrite (proj2 (proj2 (Register_frame _ _ _ _))).
  - rewrite GetStudents_free in Hexec by done. by injection Hexec as <-.
Qed.

(** C5: from the seeded manager, after any sequence of calls ([Login],
    [Register], [GetStudyProgram], [ModifyStudent] with
    [ChangeStudyProgram], the consumer of [ImportStudents] on any received
    batches, [GetStudents]) every call has returned and no two records of
    the collection share an ID. *)
Theorem ids_unique cs :
  exists sm,
    run NewInMemoryStudentManager cs = Some sm /\
    NoDup (map ID (students sm)).
Proof.
  assert (idle_unique NewInMemoryStudentManager) as Hseed.
  { split; [done|]. cbn. compute_done. }
  revert Hseed. generalize NewInMemoryStudentManager.
  induction cs as [|c cs IH]; intros sm Hinv; cbn.
  - exists sm. split; [done|]. apply Hinv.
  - destruct (exec_free sm c (proj1 Hinv)) as (sm1 & Hexec & _).
    rewrite Hexec. apply IH. by apply (exec_unique sm c).
Qed.

(** C1, as the code has it: an id whose counter is at least 3 is rejected
    with the lockout error whenever id and name are both non-empty, whether
    or not the name is the right one, and no sequence of calls changes that
    counter, so the rejection lasts. *)
Theorem lockout_permanent sm id cs :
  mu sm = false ->
  id <> "" ->
  3 <= attempts sm id ->
  exists sm',
    run sm cs = Some sm' /\
    attempts sm' id = attempts sm id /\
    forall name, name <> "" -> Login sm' id name = Some (Err ErrLockedOut, sm').
Proof.
  intros Hmu Hid. revert sm Hmu.
  induction cs as [|c cs IH]; intros sm Hmu Hlock; cbn.
  - exists sm. repeat split. intros name Hname.
    rewrite Login_free by done. unfold Login_body.
    rewrite !decide_False by done. rewrite lockedOut_attempts.
    by rewrite bool_decide_eq_true_2.
  - destruct (exec_free sm c Hmu) as (sm1 & Hexec & Hmu1). rewrite Hexec.
    pose proof (exec_lockedOut sm c sm1 id Hmu Hlock Hexec) as Hsame.
    destruct (IH sm1 Hmu1) as (sm' & Hrun & Hatt & Hlogin); [lia|].
    exists sm'. split; [done|]. split; [lia|done].
Qed.

Lemma lockout_permanent_witness :
  mu lockedSeed = false /\ "A12345" <> "" /\ 3 <= attempts lockedSeed "A12345" /\
  exists sm',
    run lockedSeed [CallRegister "Z00000" "New Student" "SI";
                    CallModifyStudent "Aditira" "SI"] = Some sm' /\
    Login sm' "A12345" "Aditira" = Some (Err ErrLockedOut, sm').
Proof.
  split; [reflexivity|]. split; [discriminate|]. split; [vm_compute; discriminate|].
  destruct (lockout_permanent lockedSeed "A12345"
              [CallRegister "Z00000" "New Student" "SI";
               CallModifyStudent "Aditira" "SI"])
    as (sm' & Hrun & _ & Hlogin);
    [reflexivity | discriminate | vm_compute; discriminate |].
  exists sm'. split; [exact Hrun|]. apply Hlogin. discriminate.
Defined.

(** C1 as stated fails: after three failed logins the counter of
    ["A12345"] is 3, and a login for that id with an empty name is rejected
    with the empty-name error, not with the lockout error. *)
Lemma lockout_empty_name_counterexample :
  run NewInMemoryStudentManager threeFailures = Some lockedSeed /\
  3 <= attempts lockedSeed "A12345" /\
  Login lockedSeed "A12345" "" = Some (Err ErrLoginEmptyName, lockedSeed) /\
  ~ (forall sm id name,
       mu sm = false -> 3 <= attempts sm id ->
       exists sm', Login sm id name = Some (Err ErrLockedOut, sm')).
Proof.
  split; [vm_compute; reflexivity|].
  split; [vm_compute; discriminate|].
  split; [vm_compute; reflexivity|].
  intros Hall.
  destruct (Hall lockedSeed "A12345" "" eq_refl) as (sm' & H);
    [vm_compute; discriminate|].
  vm_compute in H. discriminate H.
Qed.

(** C6: [ModifyStudent] applies the modifier to the first record whose name
    is [name] and to no other. With no such record it fails with the
    not-found error and the manager is unchanged. Otherwise the error of the
    modifier, if any, is the error returned, and every record but that first
    match is as it was. [ChangeStudyProgram] with a code that is not in the
    catalog reports its error and leaves the record as it was. *)
Theorem ModifyStudent_first_match sm name fn :
  mu sm = false ->
  ((forall st, In st (students sm) -> Name st <> name) ->
   ModifyStudent sm name fn = Some (Err ErrNotFound, sm))
  /\
  (forall pre st post,
     students sm = pre ++ st :: post ->
     (forall x, In x pre -> Name x <> name) ->
     Name st = name ->
     ModifyStudent sm name fn
     = Some (match snd (fn st) with Some e => Err e | None => Ok modifyMessage end,
             set_students (pre ++ fst (fn st) :: post) sm))
  /\
  (forall programStudi s,
     studentStudyPrograms sm !! programStudi = None ->
     ChangeStudyProgram sm programStudi s = (s, Some ErrInvalidProgram)).
Proof.
  intros Hmu. repeat split.
  - intros Hno. rewrite ModifyStudent_free by done. unfold ModifyStudent_body.
    rewrite ModifyStudent_loop_none by done. by rewrite set_students_id.
  - intros pre st post Hst Hpre Hname. rewrite ModifyStudent_free by done.
    unfold ModifyStudent_body. rewrite Hst.
    by rewrite ModifyStudent_loop_first.
  - intros programStudi s Hcat. unfold ChangeStudyProgram. by rewrite Hcat.
Qed.

Lemma ModifyStudent_first_match_witness :
  mu NewInMemoryStudentManager = false /\
  ModifyStudent NewInMemoryStudentManager "Dito"
    (ChangeStudyProgram NewInMemoryStudentManager "SI")
  = Some (Ok modifyMessage,
          set_students [ mkStudent "A12345" "Aditira" "TI";
                         mkStudent "B21313" "Dito" "SI";
                         mkStudent "A34555" "Afis" "MI" ]
            NewInMemoryStudentManager) /\
  ModifyStudent NewInMemoryStudentManager "Dito"
    (ChangeStudyProgram NewInMemoryStudentManager "XX")
  = Some (Err ErrInvalidProgram, NewInMemoryStudentManager).
Proof.
  split; [reflexivity|]. split.
  - destruct (ModifyStudent_first_match NewInMemoryStudentManager "Dito"
                (ChangeStudyProgram NewInMemoryStudentManager "SI") eq_refl)
      as (_ & Hfirst & _).
    apply (Hfirst [mkStudent "A12345" "Aditira" "TI"]
                  (mkStudent "B21313" "Dito" "TK")
                  [mkStudent "A34555" "Afis" "MI"]);
      [reflexivity | intros x [<-|[]]; cbn; discriminate | reflexivity].
  - destruct (ModifyStudent_first_match NewInMemoryStudentManager "Dito"
                (ChangeStudyProgram NewInMemoryStudentManager "XX") eq_refl)
      as (_ & Hfirst & _).
    apply (Hfirst [mkStudent "A12345" "Aditira" "TI"]
                  (mkStudent "B21313" "Dito" "TK")
                  [mkStudent "A34555" "Afis" "MI"]);
      [reflexivity | intros x [<-|[]]; cbn; discriminate | reflexivity].
Defined.

(** ** The failure policy of ImportStudents *)

Lemma sentBatches_app fs l1 l2 :
  sentBatches fs (l1 ++ l2) = sentBatches fs l1 ++ sentBatches fs l2.
Proof.
  induction l1 as [|f l1 IH]; cbn; [done|].
  destruct (ReadStudentsFromCSV fs f); [done|]. by rewrite IH.
Qed.

Lemma sentBatches_all_fail fs filenames :
  (forall f, In f filenames -> exists err, ReadStudentsFromCSV fs f = inl err) ->
  sentBatches fs filenames = [].
Proof.
  induction filenames as [|f l IH]; intros Hfail; cbn; [done|].
  destruct (Hfail f) as [err ->]; [by left|].
  apply IH. intros g Hg. apply Hfail. by right.
Qed.

Lemma ReadStudents_loop_malformed reads :
  forall bad acc, In bad reads -> malformed bad ->
                  exists err, ReadStudents_loop reads acc = inl err.
Proof.
  induction reads as [|r reads IH]; intros bad acc Hin Hbad; [done|].
  destruct Hin as [->|Hin].
  - destruct bad as [record|err]; cbn; [|eauto].
    destruct record as [|f0 [|f1 [|f2 [|f3 record]]]]; cbn in Hbad; eauto.
    done.
  - destruct r as [record|err]; cbn; [|eauto].
    destruct record as [|f0 [|f1 [|f2 [|f3 record]]]]; eauto.
Qed.

(** C7: a source whose read fails (its file cannot be opened, or one of its
    rows is malformed, wherever the row is) sends no batch: the outcomes of
    the import are those of the import without that source, and when every
    read fails the import returns nil and leaves the manager as it was. The
    consumer returns the error of the first registration that fails, and the
    manager then holds the records registered before it, appended in the
    order received, and none after it. *)
Theorem ImportStudents_failure_policy fs sm :
  (forall f reads bad,
     fs f = inr reads -> In bad reads -> malformed bad ->
     exists err, ReadStudentsFromCSV fs f = inl err)
  /\
  (forall before f after err out,
     ReadStudentsFromCSV fs f = inl err ->
     ImportStudents fs sm (before ++ f :: after) out
     <-> ImportStudents fs sm (before ++ after) out)
  /\
  (forall filenames out,
     (forall f, In f filenames -> exists err, ReadStudentsFromCSV fs f = inl err) ->
     ImportStudents fs sm filenames out -> out = (None, sm))
  /\
  (forall received err sm',
     ImportStudents_consume sm received = (Some err, sm') ->
     exists pre st post,
       concat received = pre ++ st :: post /\
       sm' = withRegistered pre sm /\
       Register sm' (ID st) (Name st) (StudyProgram st) = (Err err, sm'))
  /\
  (forall received pre st post err,
     concat received = pre ++ st :: post ->
     ImportStudents_batch sm pre = (None, withRegistered pre sm) ->
     Register (withRegistered pre sm) (ID st) (Name st) (StudyProgram st)
     = (Err err, withRegistered pre sm) ->
     ImportStudents_consume sm received = (Some err, withRegistered pre sm)).
Proof.
  split; [|split; [|split; [|split]]].
  - intros f reads bad Hf Hin Hbad. unfold ReadStudentsFromCSV. rewrite Hf.
    by apply (ReadStudents_loop_malformed reads bad).
  - intros before f after err out Hread.
    assert (sentBatches fs (before ++ f :: after)
            = sentBatches fs (before ++ after)) as Hsame.
    { rewrite !sentBatches_app. cbn. by rewrite Hread. }
    unfold ImportStudents. by rewrite Hsame.
  - intros filenames out Hfail (received & Hperm & Hout).
    rewrite sentBatches_all_fail in Hperm by done.
    apply Permutation_nil_r in Hperm. by subst.
  - intros received err sm' Hc. rewrite ImportStudents_consume_concat in Hc.
    destruct (ImportStudents_batch_err _ _ _ _ Hc)
      as (pre & st & post & Hcat & Hpre & Hfail).
    exists pre, st, post. split; [done|]. split; [|done].
    by apply ImportStudents_batch_ok.
  - intros received pre st post err Hcat Hpre Hfail.
    rewrite ImportStudents_consume_concat, Hcat, ImportStudents_batch_app, Hpre.
    cbn. by rewrite Hfail.
Qed.

Lemma ImportStudents_failure_policy_witness :
  ImportStudents demoFiles NewInMemoryStudentManager ["a.csv"; "b.csv"; "c.csv"]
    (Some ErrDuplicateID,
     withRegistered [mkStudent "D00001" "Dodi" "TI"] NewInMemoryStudentManager).
Proof.
  destruct (ImportStudents_failure_policy demoFiles NewInMemoryStudentManager)
    as (_ & _ & _ & _ & Hfirst).
  exists [[mkStudent "D00001" "Dodi" "TI"; mkStudent "A12345" "Dup" "TI";
           mkStudent "E00001" "Evi" "MI"]].
  split; [reflexivity|].
  apply (Hfirst _ [mkStudent "D00001" "Dodi" "TI"]
                (mkStudent "A12345" "Dup" "TI")
                [mkStudent "E00001" "Evi" "MI"]);
    [reflexivity | vm_compute; reflexivity | vm_compute; reflexivity].
Defined.

(** ** The mutex and the public methods *)

(** C9, on the code: while another goroutine holds the mutex, [Login],
    [ModifyStudent] and [GetStudents] wait for it, but [Register] does not
    and appends to the collection, and [GetStudyProgram] does not and reads
    the catalog. *)
Theorem Register_ignores_mutex :
  mu heldSeed = true /\
  Login heldSeed "A12345" "Aditira" = None /\
  ModifyStudent heldSeed "Dito" (ChangeStudyProgram heldSeed "SI") = None /\
  GetStudents heldSeed = None /\
  Register heldSeed "Z00000" "New Student" "SI"
  = (Ok "Registrasi berhasil: New Student (SI)",
     withRegistered [mkStudent "Z00000" "New Student" "SI"] heldSeed) /\
  GetStudyProgram heldSeed "TI" = (Ok "Teknik Informatika", heldSeed).
Proof. repeat split. Qed.

(** ** The worker pool *)

Section WorkerPool.
Local Open Scope nat_scope.

Lemma insert_sum (f : workerState -> nat) l w a b :
  l !! w = Some a ->
  sum_list_with f (<[w:=b]> l) + f a = sum_list_with f l + f b.
Proof.
  revert w. induction l as [|x l IH]; intros [|w] H; simpl in *; try done.
  - injection H as ->. lia.
  - specialize (IH w H). lia.
Qed.

Lemma insert_held l w a b :
  l !! w = Some a ->
  omap held (<[w:=b]> l) ++ option_list (held a)
  ≡ₚ omap held l ++ option_list (held b).
Proof.
  revert w. induction l as [|x l IH]; intros [|w] H; simpl in *; try done.
  - injection H as ->. destruct (held a), (held b); cbn; solve_Permutation.
  - specialize (IH w H). destruct (held x); cbn; [|done].
    by rewrite IH.
Qed.

Lemma elem_insert (l : list workerState) w b x :
  x ∈ <[w:=b]> l -> x = b \/ x ∈ l.
Proof.
  revert w. induction l as [|y l IH]; intros [|w] H; simpl in *; auto.
  - apply elem_of_cons in H as [->|H]; [by left|]. right. by apply elem_of_cons; right.
  - apply elem_of_cons in H as [->|H]; [right; by apply elem_of_cons; left|].
    destruct (IH w H) as [->|Hin]; [by left|]. right. by apply elem_of_cons; right.
Qed.

Lemma held_insert_same (l : list workerState) (w : nat) a b :
  l !! w = Some a -> held a = held b ->
  omap held (<[w:=b]> l) = omap held l.
Proof.
  revert w. induction l as [|x l IH]; intros [|w] H Heq; simpl in *; try done.
  - injection H as ->. by rewrite Heq.
  - destruct (held x); [f_equal|]; apply (IH w H Heq).
Qed.

Lemma held_insert_take (l : list workerState) (w : nat) a j :
  l !! w = Some a -> held a = None ->
  omap held (<[w:=Processing j]> l) ≡ₚ j :: omap held l.
Proof.
  intros H Ha. pose proof (insert_held l w a (Processing j) H) as HP.
  rewrite Ha in HP. simpl in HP. rewrite app_nil_r in HP. rewrite HP.
  solve_Permutation.
Qed.

Lemma held_insert_give (l : list workerState) (w : nat) j :
  l !! w = Some (Sending j) ->
  j :: omap held (<[w:=Waiting]> l) ≡ₚ omap held l.
Proof.
  intros H. pose proof (insert_held l w (Sending j) Waiting H) as HP.
  simpl in HP. rewrite app_nil_r in HP. rewrite <- HP. solve_Permutation.
Qed.

Lemma all_exited_held (l : list workerState) :
  Forall (fun ws => ws = Exited) l ->
  omap held l = [] /\ sum_list_with doneHeld l = 0.
Proof.
  induction 1 as [|x l -> _ [IH1 IH2]]; [done|]. split; [exact IH1 | exact IH2].
Qed.

Lemma doneHeld_le (l : list workerState) : sum_list_with doneHeld l <= length (omap held l).
Proof.
  induction l as [|x l IH]; [simpl; lia|].
  unfold omap in *. destruct x; simpl; lia.
Qed.

Lemma results_result out r :
  omap resultOf (out ++ [ResultLine r]) = omap resultOf out ++ [r].
Proof. by rewrite omap_app. Qed.

Lemma results_timing out n elapsed :
  omap resultOf (out ++ timingLines n elapsed) = omap resultOf out.
Proof.
  rewrite omap_app. unfold timingLines.
  repeat case_bool_decide; cbn; by rewrite app_nil_r.
Qed.

Lemma pool_inv_init n : pool_inv n SubmitAssignments_init.
Proof.
  constructor; cbn; try done.
  - unfold accounted. cbn. by rewrite Nat.sub_0_r, app_nil_r.
  - intros H. repeat (apply elem_of_cons in H as [H|H]; [discriminate H|]).
    by apply elem_of_nil in H.
Qed.

Lemma pool_inv_step n s s' : pool_inv n s -> pool_step n s s' -> pool_inv n s'.
Proof.
  intros [HA HB HC HD HE HF] Hstep. unfold accounted, results in *.
  destruct Hstep as [s i Hm Hi Hlen | s i Hm Hi | s w j rest Hw Hj
                    | s w Hw Hj Hm | s w j Hw | s w j Hw Hm
                    | s Hm Hall Hrc | s elapsed Hm Hrc];
    constructor; unfold accounted, results; simpl;
    rewrite ?length_insert; try done.
  - (* send *)
    rewrite <- HA, Hm. simpl.
    replace (S n - i) with (S (n - i)) by lia. simpl. solve_Permutation.
  - intros Hex. destruct (HC Hex) as [_ Hno]. by destruct (Hno i).
  - (* close *)
    rewrite <- HA, Hm. simpl. by replace (S n - i) with 0 by lia.
  - intros Hex. destruct (HC Hex) as [Hnil _]. by split.
  - (* receive *)
    rewrite (held_insert_take _ _ _ j Hw eq_refl), <- HA, Hj. solve_Permutation.
  - intros Hex. apply elem_insert in Hex as [Hex|Hex]; [done|].
    destruct (HC Hex) as [Hnil _]. by rewrite Hj in Hnil.
  - intros Hrc. by pose proof (Forall_lookup_1 _ _ _ _ (HD Hrc) Hw).
  - pose proof (insert_sum doneHeld _ _ _ (Processing j) Hw) as Hs.
    simpl in Hs. lia.
  - (* exit *)
    by rewrite (held_insert_same _ _ _ Exited Hw eq_refl).
  - intros Hrc. by pose proof (Forall_lookup_1 _ _ _ _ (HD Hrc) Hw).
  - pose proof (insert_sum doneHeld _ _ _ Exited Hw) as Hs. simpl in Hs. lia.
  - (* process *)
    by rewrite (held_insert_same _ _ (Processing j) (Sending j) Hw eq_refl).
  - intros Hex. apply elem_insert in Hex as [Hex|Hex]; [done|]. by apply HC.
  - intros Hrc. by pose proof (Forall_lookup_1 _ _ _ _ (HD Hrc) Hw).
  - pose proof (insert_sum doneHeld _ _ _ (Sending j) Hw) as Hs.
    simpl in Hs. lia.
  - (* result *)
    rewrite results_result, map_app. simpl.
    rewrite <- HA, <- (held_insert_give _ _ _ Hw). solve_Permutation.
  - intros Hex. apply elem_insert in Hex as [Hex|Hex]; [done|]. by apply HC.
  - intros Hrc. by pose proof (Forall_lookup_1 _ _ _ _ (HD Hrc) Hw).
  - rewrite results_result, length_app. simpl.
    pose proof (insert_sum doneHeld _ _ _ Waiting Hw) as Hs. simpl in Hs. lia.
  - (* return *)
    rewrite results_timing. by rewrite Hm in HA.
  - intros Hex. destruct (HC Hex) as [Hnil _]. by split.
  - by rewrite results_timing.
Qed.

Lemma pool_step_weight n s s' :
  pool_step n s s' -> poolWeight n s = S (poolWeight n s').
Proof.
  unfold poolWeight.
  destruct 1 as [s i Hm Hi Hlen | s i Hm Hi | s w j rest Hw Hj
                | s w Hw Hj Hm | s w j Hw | s w j Hw Hm
                | s Hm Hall Hrc | s elapsed Hm Hrc]; simpl.
  - rewrite Hm, length_app. simpl. destruct (resultsClosed s); lia.
  - rewrite Hm. simpl. destruct (resultsClosed s); lia.
  - pose proof (insert_sum workerWeight _ _ _ (Processing j) Hw) as Hs.
    rewrite Hj. simpl in *. destruct (resultsClosed s); lia.
  - pose proof (insert_sum workerWeight _ _ _ Exited Hw) as Hs.
    simpl in *. destruct (resultsClosed s); lia.
  - pose proof (insert_sum workerWeight _ _ _ (Sending j) Hw) as Hs.
    simpl in *. destruct (resultsClosed s); lia.
  - pose proof (insert_sum workerWeight _ _ _ Waiting Hw) as Hs.
    simpl in *. destruct (resultsClosed s); lia.
  - rewrite Hrc. lia.
  - rewrite Hm, Hrc. simpl. lia.
Qed.


Lemma firstActive_Some (l : list workerState) :
  forall k w ws, firstActive k l = Some (w, ws) ->
                 exists i, w = k + i /\ l !! i = Some ws /\ ws <> Exited.
Proof.
  induction l as [|x l IH]; intros k w ws H; simpl in H; [done|].
  destruct x;
    try (injection H as <- <-; exists 0; split; [lia|]; by split).
  destruct (IH _ _ _ H) as (i & -> & Hi & Hne).
  exists (S i). split; [lia|]. by split.
Qed.

Lemma firstActive_None (l : list workerState) k :
  firstActive k l = None -> Forall (fun ws => ws = Exited) l.
Proof.
  revert k. induction l as [|x l IH]; intros k H; simpl in H; [done|].
  destruct x; try done. constructor; [done|]. by apply (IH (S k)).
Qed.

(** The scheduler only takes steps of the pool. *)
Lemma pool_next_step n elapsed s s' :
  pool_next n elapsed s = Some s' -> pool_step n s s'.
Proof.
  unfold pool_next. intros H.
  destruct (main s) as [i| |] eqn:Hm; [| |done].
  - destruct (decide (i <= n)) as [Hi|Hi].
    + destruct (decide (length (jobs s) < n)) as [Hlen|]; [|done].
      injection H as <-. by apply step_send.
    + injection H as <-. apply (step_close n s i); [done|lia].
  - destruct (firstActive 0 (workers s)) as [[w ws]|] eqn:Hfirst.
    + destruct (firstActive_Some _ _ _ _ Hfirst) as (i & -> & Hw & Hne).
      simpl in *. destruct ws as [|j|j|]; [| | |done].
      * destruct (jobs s) as [|j rest] eqn:Hj; injection H as <-.
        -- apply step_exit; [done|done|]. intros i0. by rewrite Hm.
        -- rewrite <- Hm. by apply step_receive.
      * injection H as <-. rewrite <- Hm. by apply step_process.
      * injection H as <-. rewrite <- Hm. by apply step_result.
    + apply firstActive_None in Hfirst.
      destruct (resultsClosed s) eqn:Hrc; injection H as <-.
      * rewrite <- Hrc. by apply step_return.
      * rewrite <- Hm. by apply step_closeResults.
Qed.

(** Until the call has returned, some goroutine can move. *)
Lemma pool_next_progress n elapsed s :
  pool_inv n s -> main s <> Returned -> is_Some (pool_next n elapsed s).
Proof.
  intros [HA HB HC HD HE HF] Hmain. unfold pool_next.
  destruct (main s) as [i| |] eqn:Hm; [| |done].
  - destruct (decide (i <= n)) as [Hi|Hi]; [|done].
    rewrite decide_True; [done|].
    apply Permutation_length in HA. unfold accounted in HA.
    rewrite Hm in HA. simpl in HA.
    rewrite !length_app, length_seq, length_seq in HA. lia.
  - destruct (firstActive 0 (workers s)) as [[w ws]|] eqn:Hfirst.
    + destruct (firstActive_Some _ _ _ _ Hfirst) as (i & -> & Hw & Hne).
      destruct ws as [|j|j|]; try done. by destruct (jobs s).
    + by destruct (resultsClosed s).
Qed.

Lemma pool_steps_inv n s s' :
  pool_inv n s -> pool_steps n s s' -> pool_inv n s'.
Proof.
  intros Hinv Hsteps. induction Hsteps as [|s1 s2 s3 _ IH Hstep]; [done|].
  apply (pool_inv_step n s2); [by apply IH|done].
Qed.

Lemma pool_steps_cons n s1 s2 s3 :
  pool_step n s1 s2 -> pool_steps n s2 s3 -> pool_steps n s1 s3.
Proof.
  intros Hstep Hsteps. induction Hsteps as [s2|s2 s3 s4 _ IH Hstep'].
  - apply (pool_steps_snoc n s1 s1); [constructor|done].
  - apply (pool_steps_snoc n s1 s3); [by apply IH|done].
Qed.

Lemma pool_run_steps n elapsed fuel :
  forall s, pool_steps n s (pool_run n elapsed fuel s).
Proof.
  induction fuel as [|fuel IH]; intros s; simpl; [constructor|].
  destruct (pool_next n elapsed s) as [s'|] eqn:Hnext; [|constructor].
  apply (pool_steps_cons n s s'); [by apply (pool_next_step n elapsed)|apply IH].
Qed.

(** With as much fuel as the weight of the state the scheduler reaches the
    return of the call. *)
Lemma pool_run_returns n elapsed fuel :
  forall s, pool_inv n s -> poolWeight n s <= fuel ->
            main (pool_run n elapsed fuel s) = Returned.
Proof.
  induction fuel as [|fuel IH]; intros s Hinv Hw.
  - simpl. unfold poolWeight in Hw. destruct (main s); simpl in Hw; [lia|lia|done].
  - simpl. destruct (main s) eqn:Hm.
    + destruct (pool_next_progress n elapsed s Hinv) as [s' Hnext];
        [by rewrite Hm|].
      rewrite Hnext. apply pool_next_step in Hnext.
      apply IH; [by apply (pool_inv_step n s)|].
      apply pool_step_weight in Hnext. lia.
    + destruct (pool_next_progress n elapsed s Hinv) as [s' Hnext];
        [by rewrite Hm|].
      rewrite Hnext. apply pool_next_step in Hnext.
      apply IH; [by apply (pool_inv_step n s)|].
      apply pool_step_weight in Hnext. lia.
    + unfold pool_next. by rewrite Hm.
Qed.

Lemma pool_inv_returned n s :
  pool_inv n s -> main s = Returned ->
  map assignment (results s) ≡ₚ seq 1 n /\ units s = length (results s).
Proof.
  intros [HA HB HC HD HE HF] Hm.
  pose proof (HD (HE Hm)) as Hall.
  destruct (all_exited_held _ Hall) as [Hheld Hsum].
  assert (Exited ∈ workers s) as Hex.
  { destruct (workers s) as [|x l]; [done|].
    apply Forall_cons in Hall as [-> _]. by apply elem_of_cons; left. }
  destruct (HC Hex) as [Hjobs _].
  unfold accounted in HA. rewrite Hm, Hjobs, Hheld in HA. simpl in HA.
  split; [done|]. rewrite HF, Hsum. done.
Qed.

Lemma pool_inv_units n s : pool_inv n s -> units s <= n.
Proof.
  intros [HA HB HC HD HE HF].
  apply Permutation_length in HA. unfold accounted in HA.
  rewrite !length_app, length_map, length_seq in HA.
  pose proof (doneHeld_le (workers s)). lia.
Qed.

(** C8: [SubmitAssignments n] prints exactly [n] results, one for each of
    the jobs 1..n, whatever the interleaving of the goroutines: until the
    call has returned some goroutine can move, every step lowers the weight
    of the state by one (so every execution is finite), an execution that
    reaches the return exists for every elapsed time, and at the return the
    results are [n], their assignments are 1..n each once, and [n] units of
    work were done. No execution does more than [n] units of work, so
    [SubmitAssignments 0] does none. The step that returns prints the timing
    lines and changes neither the results nor the work done. *)
Theorem SubmitAssignments_results (n : nat) :
  (forall s, pool_steps n SubmitAssignments_init s -> main s <> Returned ->
             exists s', pool_step n s s')
  /\
  (forall s s', pool_step n s s' -> poolWeight n s = S (poolWeight n s'))
  /\
  (forall elapsed,
     pool_steps n SubmitAssignments_init
       (pool_run n elapsed (4 * n + 7) SubmitAssignments_init) /\
     main (pool_run n elapsed (4 * n + 7) SubmitAssignments_init) = Returned)
  /\
  (forall s, pool_steps n SubmitAssignments_init s -> main s = Returned ->
             length (results s) = n /\
             map assignment (results s) ≡ₚ seq 1 n /\
             units s = n)
  /\
  (forall s, pool_steps n SubmitAssignments_init s -> units s <= n)
  /\
  (forall s s', pool_step n s s' -> main s <> Returned -> main s' = Returned ->
                results s' = results s /\ units s' = units s /\
                exists elapsed, stdout s' = stdout s ++ timingLines n elapsed).
Proof.
  assert (forall s, pool_steps n SubmitAssignments_init s -> pool_inv n s)
    as Hreach.
  { intros s. apply pool_steps_inv, pool_inv_init. }
  split; [|split; [|split; [|split; [|split]]]].
  - intros s Hsteps Hmain.
    destruct (pool_next_progress n 0%Z s (Hreach s Hsteps) Hmain) as [s' Hnext].
    exists s'. by apply (pool_next_step n 0%Z).
  - apply pool_step_weight.
  - intros elapsed. split; [apply pool_run_steps|].
    apply pool_run_returns; [apply pool_inv_init|].
    unfold poolWeight. simpl. lia.
  - intros s Hsteps Hmain.
    destruct (pool_inv_returned n s (Hreach s Hsteps) Hmain) as [Hperm Hunits].
    pose proof (Permutation_length Hperm) as Hlen.
    rewrite length_map, length_seq in Hlen.
    split; [done|]. split; [done|]. by rewrite Hunits.
  - intros s Hsteps. by apply pool_inv_units, Hreach.
  - intros s s' Hstep Hmain Hret.
    destruct Hstep; simpl in *; try congruence.
    split; [apply results_timing|]. split; [done|]. by exists elapsed.
Qed.

Lemma SubmitAssignments_results_witness :
  main (pool_run 8 (80 * millisecond) 39 SubmitAssignments_init) = Returned /\
  length (results (pool_run 8 (80 * millisecond) 39 SubmitAssignments_init)) = 8 /\
  units (pool_run 8 (80 * millisecond) 39 SubmitAssignments_init) = 8 /\
  units (pool_run 0 (80 * millisecond) 7 SubmitAssignments_init) = 0.
Proof.
  destruct (SubmitAssignments_results 8) as (_ & _ & Hrun & Hret & _).
  destruct (Hrun (80 * millisecond)%Z) as [Hsteps Hmain].
  destruct (Hret _ Hsteps Hmain) as (Hlen & _ & Hunits).
  destruct (SubmitAssignments_results 0) as (_ & _ & Hrun0 & Hret0 & _).
  destruct (Hrun0 (80 * millisecond)%Z) as [Hsteps0 Hmain0].
  destruct (Hret0 _ Hsteps0 Hmain0) as (_ & _ & Hunits0).
  split; [exact Hmain|]. split; [exact Hlen|]. split; [exact Hunits|exact Hunits0].
Defined.

End WorkerPool.

(** ** The examples of the seeded manager *)

Example Login_seed :
  Login NewInMemoryStudentManager "A12345" "Aditira"
  = Some (Ok "Login berhasil: Selamat datang Aditira! Kamu terdaftar di program studi: Teknik Informatika",
          set_attempts "A12345" 0 NewInMemoryStudentManager).
Proof. vm_compute. reflexivity. Qed.

Example Login_fourth_attempt :
  run NewInMemoryStudentManager threeFailures = Some lockedSeed /\
  Login lockedSeed "A12345" "Aditira" = Some (Err ErrLockedOut, lockedSeed).
Proof. split; vm_compute; reflexivity. Qed.

Example GetStudyProgram_seed :
  GetStudyProgram NewInMemoryStudentManager "MI"
  = (Ok "Manajemen Informasi", NewInMemoryStudentManager) /\
  GetStudyProgram NewInMemoryStudentManager "XX"
  = (Err ErrProgramNotFound, NewInMemoryStudentManager).
Proof. split; reflexivity. Qed.

Example ReadStudentsFromCSV_demo :
  (exists err, ReadStudentsFromCSV demoFiles "a.csv" = inl err) /\
  ReadStudentsFromCSV demoFiles "b.csv"
  = inr [mkStudent "D00001" "Dodi" "TI"; mkStudent "A12345" "Dup" "TI";
         mkStudent "E00001" "Evi" "MI"] /\
  sentBatches demoFiles ["a.csv"; "b.csv"; "c.csv"]
  = [[mkStudent "D00001" "Dodi" "TI"; mkStudent "A12345" "Dup" "TI";
      mkStudent "E00001" "Evi" "MI"]].
Proof. split; [eexists; reflexivity|]. split; reflexivity. Qed.

(** * Further properties *)

(** ** Reading a source *)

Lemma ReadStudents_loop_rows sts :
  forall acc, ReadStudents_loop (map rowOf sts) acc = inr (acc ++ sts).
Proof.
  induction sts as [|st sts IH]; intros acc; cbn.
  - by rewrite app_nil_r.
  - rewrite IH, <- app_assoc. by destruct st.
Qed.

Lemma ReadStudents_loop_good good :
  forall acc rest,
    Forall (fun r => ~ malformed r) good ->
    exists sts, omap studentOf good = sts /\ length sts = length good /\
                ReadStudents_loop (good ++ rest) acc
                = ReadStudents_loop rest (acc ++ sts).
Proof.
  induction good as [|r good IH]; intros acc rest Hgood.
  - exists []. by rewrite app_nil_r.
  - apply Forall_cons in Hgood as [Hr Hgood].
    destruct r as [record|err]; [|by destruct Hr].
    destruct record as [|f0 [|f1 [|f2 [|f3 record]]]];
      try (destruct Hr; cbn; discriminate).
    destruct (IH (acc ++ [mkStudent f0 f1 f2]) rest Hgood) as (sts & Hsts & Hlen & Hloop).
    exists (mkStudent f0 f1 f2 :: sts). cbn. rewrite Hloop, <- app_assoc.
    split; [by rewrite <- Hsts|]. split; [by rewrite Hlen|done].
Qed.

(** X1: reading a source whose rows are the rows of a list of students
    gives back that list, in order. *)
Theorem ReadStudentsFromCSV_rows (fs : FileSystem) filename sts :
  fs filename = inr (map rowOf sts) ->
  ReadStudentsFromCSV fs filename = inr sts.
Proof.
  intros Hf. unfold ReadStudentsFromCSV. rewrite Hf.
  by rewrite ReadStudents_loop_rows.
Qed.

Lemma ReadStudentsFromCSV_rows_witness :
  ReadStudentsFromCSV cleanFiles "x.csv"
  = inr [mkStudent "F00001" "Fajar" "TI"; mkStudent "G00001" "Gita" "SI"].
Proof. apply ReadStudentsFromCSV_rows. reflexivity. Defined.



(** X3: a source all of whose reads are records of three fields is read
    without error, into one student per record, in order. *)
Theorem ReadStudentsFromCSV_all_good (fs : FileSystem) filename reads :
  fs filename = inr reads ->
  Forall (fun r => ~ malformed r) reads ->
  ReadStudentsFromCSV fs filename = inr (omap studentOf reads) /\
  length (omap studentOf reads) = length reads.
Proof.
  intros Hf Hgood. unfold ReadStudentsFromCSV. rewrite Hf.
  destruct (ReadStudents_loop_good reads [] [] Hgood) as (sts & Hsts & Hlen & Hloop).
  rewrite app_nil_r in Hloop. rewrite Hloop. cbn. by subst.
Qed.

Lemma ReadStudentsFromCSV_all_good_witness :
  ReadStudentsFromCSV demoFiles "b.csv"
  = inr [mkStudent "D00001" "Dodi" "TI"; mkStudent "A12345" "Dup" "TI";
         mkStudent "E00001" "Evi" "MI"].
Proof.
  destruct (ReadStudentsFromCSV_all_good demoFiles "b.csv"
              [Row ["D00001"; "Dodi"; "TI"]; Row ["A12345"; "Dup"; "TI"];
               Row ["E00001"; "Evi"; "MI"]]) as [Hread _];
    [reflexivity | | exact Hread].
  repeat (constructor; [intros Hbad; by apply Hbad|]). constructor.
Defined.

(** ** Invariants of sequences of calls *)

Lemma run_preserves (P : InMemoryStudentManager -> Prop) :
  (forall sm c sm', mu sm = false -> P sm -> exec sm c = Some sm' -> P sm') ->
  forall cs sm, mu sm = false -> P sm ->
    exists sm', run sm cs = Some sm' /\ mu sm' = false /\ P sm'.
Proof.
  intros Hexec. induction cs as [|c cs IH]; intros sm Hmu HP; cbn.
  - by exists sm.
  - destruct (exec_free sm c Hmu) as (sm1 & Hc & Hmu1). rewrite Hc.
    apply IH; [done|]. by apply (Hexec sm c).
Qed.

Lemma ModifyStudent_body_frame name fn sm :
  mu (snd (ModifyStudent_body name fn sm)) = mu sm /\
  studentStudyPrograms (snd (ModifyStudent_body name fn sm))
  = studentStudyPrograms sm /\
  failedLoginAttempts (snd (ModifyStudent_body name fn sm))
  = failedLoginAttempts sm.
Proof. unfold ModifyStudent_body. by destruct (ModifyStudent_loop _ _ _). Qed.

Lemma exec_catalog sm c sm' :
  mu sm = false -> exec sm c = Some sm' ->
  studentStudyPrograms sm' = studentStudyPrograms sm.
Proof.
  intros Hmu Hexec. destruct c; cbn in Hexec.
  - rewrite Login_free in Hexec by done. injection Hexec as <-.
    apply Login_body_frame.
  - injection Hexec as <-. apply Register_frame.
  - injection Hexec as <-. unfold GetStudyProgram. by destruct (_ !! _).
  - rewrite ModifyStudent_free in Hexec by done. injection Hexec as <-.
    apply ModifyStudent_body_frame.
  - injection Hexec as <-.
    apply (ImportStudents_consume_preserves
             (fun s => studentStudyPrograms s = studentStudyPrograms sm)); [|done].
    intros s i n p Hs. by rewrite (proj1 (proj2 (Register_frame _ _ _ _))).
  - rewrite GetStudents_free in Hexec by done. by injection Hexec as <-.
Qed.

(** X4: no sequence of calls changes the catalog: [GetStudyProgram]
    answers after the calls as it did before them. *)
Theorem catalog_fixed sm cs :
  mu sm = false ->
  exists sm',
    run sm cs = Some sm' /\
    studentStudyPrograms sm' = studentStudyPrograms sm /\
    forall code, fst (GetStudyProgram sm' code) = fst (GetStudyProgram sm code).
Proof.
  intros Hmu.
  destruct (run_preserves
              (fun s => studentStudyPrograms s = studentStudyPrograms sm))
    with (cs := cs) (sm := sm) as (sm' & Hrun & _ & Hcat); [|done|done|].
  { intros s c s' Hs HP Hc. by rewrite (exec_catalog s c s'). }
  exists sm'. split; [done|]. split; [done|].
  intros code. unfold GetStudyProgram. rewrite Hcat. by destruct (_ !! _).
Qed.

Lemma catalog_fixed_witness :
  exists sm',
    run NewInMemoryStudentManager
      [CallRegister "Z00000" "New Student" "SI"; CallModifyStudent "Dito" "MI";
       CallLogin "A12345" "WrongName"] = Some sm' /\
    fst (GetStudyProgram sm' "TK") = Ok "Teknik Komputer".
Proof.
  destruct (catalog_fixed NewInMemoryStudentManager
              [CallRegister "Z00000" "New Student" "SI";
               CallModifyStudent "Dito" "MI"; CallLogin "A12345" "WrongName"]
              eq_refl) as (sm' & Hrun & _ & Hget).
  exists sm'. split; [exact Hrun|]. rewrite Hget. reflexivity.
Defined.

Lemma Register_ok_valid sm id name studyProgram msg sm' :
  Register sm id name studyProgram = (Ok msg, sm') ->
  validStudent (studentStudyPrograms sm) (mkStudent id name studyProgram) /\
  ~ In id (map ID (students sm)) /\
  sm' = withRegistered [mkStudent id name studyProgram] sm.
Proof.
  unfold Register. case_decide as Hempty; [done|].
  destruct (studentStudyPrograms sm !! studyProgram) as [p|] eqn:Hcat; [|done].
  destruct (idUsed id (students sm)) eqn:Hused; [done|].
  intros H. injection H as _ <-. split; [|split; [by apply idUsed_false|done]].
  unfold validStudent. cbn. rewrite Hcat. repeat split; try tauto. by exists p.
Qed.

Lemma Register_valid sm id name studyProgram :
  records_valid sm -> records_valid (snd (Register sm id name studyProgram)).
Proof.
  intros [Hno Hall].
  destruct (Register sm id name studyProgram) as [[msg|err] sm'] eqn:HR.
  - destruct (Register_ok_valid _ _ _ _ _ _ HR) as (Hv & _ & ->).
    split; [done|]. cbn. apply Forall_app. split; [done|]. by constructor.
  - by rewrite (Register_err _ _ _ _ _ _ HR).
Qed.

Lemma ModifyStudent_loop_Forall (P : Student -> Prop) name fn l :
  (forall s, P s -> P (fst (fn s))) ->
  Forall P l -> Forall P (snd (ModifyStudent_loop name fn l)).
Proof.
  intros Hfn. induction 1 as [|x l Hx Hl IH]; cbn; [done|].
  case_decide.
  - specialize (Hfn x Hx). destruct (fn x) as [x' e]. cbn in *. by constructor.
  - destruct (ModifyStudent_loop name fn l) as [r l']. cbn in *. by constructor.
Qed.

Lemma exec_valid sm c sm' :
  mu sm = false -> records_valid sm -> exec sm c = Some sm' -> records_valid sm'.
Proof.
  intros Hmu Hv Hexec. destruct c; cbn in Hexec.
  - rewrite Login_free in Hexec by done. injection Hexec as <-.
    destruct (Login_body_frame id name sm) as (_ & Hst & Hcat & _).
    unfold records_valid. by rewrite Hst, Hcat.
  - injection Hexec as <-. by apply Register_valid.
  - injection Hexec as <-. unfold GetStudyProgram. by destruct (_ !! _).
  - rewrite ModifyStudent_free in Hexec by done. injection Hexec as <-.
    destruct Hv as [Hno Hall]. unfold ModifyStudent_body.
    pose proof (ModifyStudent_loop_Forall
                  (validStudent (studentStudyPrograms sm)) name
                  (ChangeStudyProgram sm programStudi) (students sm)) as HF.
    destruct (ModifyStudent_loop _ _ _) as [r l]. split; [done|]. cbn in *.
    apply HF; [|done]. intros s (H1 & H2 & H3 & H4). unfold ChangeStudyProgram.
    destruct (studentStudyPrograms sm !! programStudi) as [p|] eqn:Hcat; cbn.
    + repeat split; cbn; try done;
        first [by rewrite Hcat | intros ->; congruence].
    + done.
  - injection Hexec as <-.
    apply (ImportStudents_consume_preserves records_valid); [|done].
    intros s i n p Hs. by apply Register_valid.
  - rewrite GetStudents_free in Hexec by done. by injection Hexec as <-.
Qed.

(** X5: from the seeded manager, after any sequence of calls, every record
    has a non-empty ID and name and a study program that [GetStudyProgram]
    resolves. *)
Theorem records_stay_valid cs :
  exists sm,
    run NewInMemoryStudentManager cs = Some sm /\
    Forall (fun st =>
              ID st <> "" /\ Name st <> "" /\
              exists program,
                GetStudyProgram sm (StudyProgram st) = (Ok program, sm))
           (students sm).
Proof.
  destruct (run_preserves records_valid exec_valid cs NewInMemoryStudentManager)
    as (sm & Hrun & _ & Hno & Hall); [done| |].
  { split; [done|]. cbn. repeat constructor; cbn; try done; by eexists. }
  exists sm. split; [done|]. eapply Forall_impl; [exact Hall|].
  intros st (H1 & H2 & _ & [p Hp]). repeat split; try done.
  exists p. unfold GetStudyProgram. by rewrite Hp.
Qed.

Lemma exec_bounded sm c sm' :
  mu sm = false -> counters_bounded sm -> exec sm c = Some sm' ->
  counters_bounded sm'.
Proof.
  intros Hmu Hb Hexec. destruct c; cbn in Hexec.
  - rewrite Login_free in Hexec by done. injection Hexec as <-.
    unfold Login_body. repeat case_decide; try done.
    rewrite lockedOut_attempts. case_bool_decide as Hlock; [done|].
    assert (0 <= attempts sm id) as Hlo.
    { unfold attempts. destruct (failedLoginAttempts sm !! id) as [a|] eqn:Ha;
        cbn; [|lia]. by destruct (Hb id a Ha). }
    assert (counters_bounded (set_attempts id 0 sm)) as Hreset.
    { apply map_Forall_insert_2; [lia|done]. }
    assert (counters_bounded (incrAttempts id sm)) as Hincr.
    { apply map_Forall_insert_2; [|done].
      rewrite wrap64_succ; [lia| |lia]. unfold int_range. lia. }
    rewrite Login_loop_first.
    destruct (firstWithID id (students sm)); repeat case_decide; done.
  - injection Hexec as <-. unfold counters_bounded.
    by rewrite (proj2 (proj2 (Register_frame _ _ _ _))).
  - injection Hexec as <-. unfold GetStudyProgram. by destruct (_ !! _).
  - rewrite ModifyStudent_free in Hexec by done. injection Hexec as <-.
    unfold counters_bounded.
    by rewrite (proj2 (proj2 (ModifyStudent_body_frame _ _ _))).
  - injection Hexec as <-.
    apply (ImportStudents_consume_preserves counters_bounded); [|done].
    intros s i n p Hs. unfold counters_bounded.
    by rewrite (proj2 (proj2 (Register_frame _ _ _ _))).
  - rewrite GetStudents_free in Hexec by done. by injection Hexec as <-.
Qed.

(** X6: from the seeded manager, after any sequence of calls, every
    counter of failed logins is between 0 and 3. *)
Theorem counters_stay_bounded cs :
  exists sm,
    run NewInMemoryStudentManager cs = Some sm /\
    forall id, 0 <= attempts sm id <= 3.
Proof.
  destruct (run_preserves counters_bounded exec_bounded cs
              NewInMemoryStudentManager) as (sm & Hrun & _ & Hb); [done| |].
  { apply map_Forall_empty. }
  exists sm. split; [done|]. intros id. unfold attempts.
  destruct (failedLoginAttempts sm !! id) as [a|] eqn:Ha; cbn; [|lia].
  by apply (Hb id a).
Qed.

(** ** Failed logins add up *)

Lemma wrap64_range z : int_range (wrap64 z).
Proof.
  unfold int_range, wrap64.
  pose proof (Z.mod_pos_bound (z + 2 ^ 63) (2 ^ 64)). lia.
Qed.

Lemma incrAttempts_ok id sm : counters_ok sm -> counters_ok (incrAttempts id sm).
Proof. intros Hok. apply map_Forall_insert_2; [apply wrap64_range|done]. Qed.

Lemma Login_body_wrong sm id name :
  id <> "" -> wrongName sm id name -> attempts sm id < 3 ->
  Login_body id name sm = (Err ErrAuthenticationFailed, incrAttempts id sm).
Proof.
  intros Hid [Hname Hwrong] Hlt. unfold Login_body.
  rewrite !decide_False by done. rewrite lockedOut_attempts.
  rewrite bool_decide_eq_false_2 by lia. rewrite Login_loop_first.
  destruct (firstWithID id (students sm)); [|done]. by rewrite decide_False.
Qed.

(** X7: failed logins for one id add up: k logins with non-empty wrong
    names on a counter that stays within 3 add exactly k to it and leave the
    records as they were; once the counter is 3 every login with a non-empty
    name is rejected with the lockout error. *)
Theorem failures_accumulate sm id names :
  mu sm = false ->
  counters_ok sm ->
  id <> "" ->
  Forall (wrongName sm id) names ->
  attempts sm id + Z.of_nat (length names) <= 3 ->
  exists sm',
    run sm (map (CallLogin id) names) = Some sm' /\
    attempts sm' id = attempts sm id + Z.of_nat (length names) /\
    students sm' = students sm /\
    (attempts sm' id = 3 ->
     forall name, name <> "" ->
       Login sm' id name = Some (Err ErrLockedOut, sm')).
Proof.
  intros Hmu Hok Hid Hwrong. revert sm Hmu Hok Hwrong.
  induction names as [|name names IH]; intros sm Hmu Hok Hwrong Hle.
  - exists sm. cbn. split; [done|]. split; [lia|]. split; [done|].
    intros H3 name Hname. rewrite Login_free by done. unfold Login_body.
    rewrite !decide_False by done. rewrite lockedOut_attempts.
    by rewrite bool_decide_eq_true_2 by lia.
  - apply Forall_cons in Hwrong as [Hw Hwrong].
    cbn [length] in Hle. cbn [map run exec].
    rewrite Login_free by done.
    rewrite Login_body_wrong by (done || lia). cbn.
    assert (attempts (incrAttempts id sm) id = attempts sm id + 1) as Hincr.
    { unfold incrAttempts. rewrite attempts_set_eq.
      apply wrap64_succ; [by apply attempts_range | lia]. }
    destruct (IH (incrAttempts id sm)) as (sm' & Hrun & Hatt & Hst & Hlock);
      [done | by apply incrAttempts_ok | done | lia |].
    exists sm'. split; [done|]. split; [lia|]. split; [done|done].
Qed.

Lemma failures_accumulate_witness :
  exists sm',
    run NewInMemoryStudentManager
      (map (CallLogin "A12345") ["Dito"; "Afis"; "aditira"]) = Some sm' /\
    attempts sm' "A12345" = 3 /\
    Login sm' "A12345" "Aditira" = Some (Err ErrLockedOut, sm').
Proof.
  destruct (failures_accumulate NewInMemoryStudentManager "A12345"
              ["Dito"; "Afis"; "aditira"])
    as (sm' & Hrun & Hatt & _ & Hlock).
  - reflexivity.
  - intros k z Hk. vm_compute in Hk. discriminate Hk.
  - discriminate.
  - repeat constructor; cbn; discriminate.
  - vm_compute. discriminate.
  - exists sm'. split; [exact Hrun|]. split; [exact Hatt|].
    apply Hlock; [exact Hatt | discriminate].
Defined.

(** ** Register and the other methods *)

Lemma firstWithID_In id l st :
  firstWithID id l = Some st -> In st l /\ ID st = id.
Proof.
  intros H. apply find_some in H as [Hin Hid]. split; [done|].
  by apply bool_decide_eq_true in Hid.
Qed.

Lemma firstWithID_None id l :
  firstWithID id l = None <-> ~ In id (map ID l).
Proof.
  induction l as [|x l IH]; cbn; [tauto|]. case_bool_decide as Hx.
  - split; [done|]. intros Hn. destruct Hn. by left.
  - rewrite IH. tauto.
Qed.

Lemma firstWithID_unique l st :
  NoDup (map ID l) -> In st l -> firstWithID (ID st) l = Some st.
Proof.
  induction l as [|x l IH]; intros Hnd Hin; [done|]. cbn in *.
  apply NoDup_cons in Hnd as [Hx Hnd]. destruct Hin as [->|Hin].
  - by rewrite bool_decide_eq_true_2.
  - rewrite bool_decide_eq_false_2; [by apply IH|].
    intros Heq. apply Hx. rewrite Heq. apply list_elem_of_In.
    by apply in_map.
Qed.

Lemma firstWithID_app_fresh id l st :
  ~ In id (map ID l) -> ID st = id -> firstWithID id (l ++ [st]) = Some st.
Proof.
  intros Hfresh Hid. induction l as [|x l IH]; cbn in *.
  - by rewrite bool_decide_eq_true_2.
  - rewrite bool_decide_eq_false_2 by tauto. apply IH. tauto.
Qed.

(** X8: a student who has just been registered can log in with the
    registered name, unless the id was locked out before: the login reports
    the catalog's name of the registered program and resets the counter. *)
Theorem Register_then_Login sm id name studyProgram msg sm1 :
  mu sm = false ->
  Register sm id name studyProgram = (Ok msg, sm1) ->
  attempts sm id < 3 ->
  exists program,
    studentStudyPrograms sm !! studyProgram = Some program /\
    Login sm1 id name
    = Some (Ok ("Login berhasil: Selamat datang " +:+ name
                +:+ "! Kamu terdaftar di program studi: " +:+ program),
            set_attempts id 0 sm1).
Proof.
  intros Hmu HR Hlt.
  destruct (Register_ok_valid _ _ _ _ _ _ HR) as ((Hid & Hname & _ & [p Hp]) & Hfresh & ->).
  cbn in Hid, Hname, Hp. exists p. split; [done|].
  rewrite Login_free by done. unfold Login_body.
  rewrite !decide_False by done. rewrite lockedOut_attempts.
  rewrite bool_decide_eq_false_2 by (unfold attempts in *; cbn; lia).
  rewrite Login_loop_first. cbn [students withRegistered set_students].
  rewrite (firstWithID_app_fresh id _ (mkStudent id name studyProgram)) by done.
  cbn. rewrite decide_True by done.
  unfold loginMessage, programName. cbn. by rewrite Hp.
Qed.

Lemma Register_then_Login_witness :
  exists sm1,
    Register NewInMemoryStudentManager "Z00000" "New Student" "SI"
    = (Ok "Registrasi berhasil: New Student (SI)", sm1) /\
    Login sm1 "Z00000" "New Student"
    = Some (Ok "Login berhasil: Selamat datang New Student! Kamu terdaftar di program studi: Sistem Informasi",
            set_attempts "Z00000" 0 sm1).
Proof.
  eexists. split; [reflexivity|].
  destruct (Register_then_Login NewInMemoryStudentManager "Z00000" "New Student"
              "SI" _ _ eq_refl eq_refl) as (program & Hp & HL);
    [vm_compute; reflexivity|].
  vm_compute in Hp. injection Hp as <-. exact HL.
Defined.

(** X9: after a successful registration of an id, a second registration
    of the same id with valid fields fails with the duplicate-id error and
    leaves the collection, one record longer than before, as it is. *)
Theorem Register_twice sm id name studyProgram msg sm1 name' studyProgram' :
  Register sm id name studyProgram = (Ok msg, sm1) ->
  name' <> "" ->
  studyProgram' <> "" ->
  is_Some (studentStudyPrograms sm !! studyProgram') ->
  Register sm1 id name' studyProgram' = (Err ErrDuplicateID, sm1) /\
  length (students sm1) = S (length (students sm)).
Proof.
  intros HR Hname' Hprog' [p' Hp'].
  destruct (Register_ok_valid _ _ _ _ _ _ HR) as ((Hid & _) & _ & ->).
  cbn in Hid. split; [|cbn; rewrite length_app; cbn; lia].
  unfold Register. rewrite decide_False by tauto. cbn. rewrite Hp'.
  assert (idUsed id (students sm ++ [mkStudent id name studyProgram]) = true) as ->;
    [|done].
  apply idUsed_true. exists (mkStudent id name studyProgram).
  split; [|done]. apply in_or_app. right. by left.
Qed.

Lemma Register_twice_witness :
  exists sm1,
    Register NewInMemoryStudentManager "Z00000" "New Student" "SI"
    = (Ok "Registrasi berhasil: New Student (SI)", sm1) /\
    Register sm1 "Z00000" "Other Student" "TI" = (Err ErrDuplicateID, sm1).
Proof.
  eexists. split; [reflexivity|].
  apply (Register_twice NewInMemoryStudentManager "Z00000" "New Student" "SI"
           _ _ "Other Student" "TI" eq_refl);
    [discriminate | discriminate | by exists "Teknik Informatika"].
Defined.

(** ** ModifyStudent keeps the shape of the collection *)

Lemma ModifyStudent_loop_length name fn l :
  length (snd (ModifyStudent_loop name fn l)) = length l.
Proof.
  induction l as [|x l IH]; cbn; [done|]. case_decide.
  - by destruct (fn x).
  - destruct (ModifyStudent_loop name fn l). cbn in *. by rewrite IH.
Qed.

Lemma ModifyStudent_loop_map (g : Student -> string) name fn l :
  (forall s, g (fst (fn s)) = g s) ->
  map g (snd (ModifyStudent_loop name fn l)) = map g l.
Proof.
  intros Hfn. induction l as [|x l IH]; cbn; [done|]. case_decide.
  - specialize (Hfn x). destruct (fn x) as [x' e]. cbn in *. by rewrite Hfn.
  - destruct (ModifyStudent_loop name fn l) as [r l']. cbn in *. by rewrite IH.
Qed.

Lemma ModifyStudent_Some sm name fn r sm' :
  ModifyStudent sm name fn = Some (r, sm') ->
  mu sm = false /\ ModifyStudent_body name fn sm = (r, sm').
Proof.
  intros H. destruct (mu sm) eqn:Hmu.
  - unfold ModifyStudent in H. by rewrite locked_held in H.
  - rewrite ModifyStudent_free in H by done. split; congruence.
Qed.

(** X10: a call of [ModifyStudent] that returns leaves the mutex free and
    changes neither the number of records, nor the catalog, nor the
    counters; with [ChangeStudyProgram] it changes no ID and no name. *)
Theorem ModifyStudent_frame sm name fn r sm' :
  ModifyStudent sm name fn = Some (r, sm') ->
  mu sm' = false /\
  length (students sm') = length (students sm) /\
  studentStudyPrograms sm' = studentStudyPrograms sm /\
  failedLoginAttempts sm' = failedLoginAttempts sm /\
  ((exists programStudi, fn = ChangeStudyProgram sm programStudi) ->
   map ID (students sm') = map ID (students sm) /\
   map Name (students sm') = map Name (students sm)).
Proof.
  intros H. apply ModifyStudent_Some in H as [Hmu Hbody].
  unfold ModifyStudent_body in Hbody.
  pose proof (ModifyStudent_loop_length name fn (students sm)) as Hlen.
  pose proof (ModifyStudent_loop_map ID name fn (students sm)) as Hids.
  pose proof (ModifyStudent_loop_map Name name fn (students sm)) as Hnames.
  destruct (ModifyStudent_loop name fn (students sm)) as [r' l].
  injection Hbody as -> <-. cbn in *. repeat split; try done.
  - destruct H as [p ->]. apply Hids. intros s. apply ChangeStudyProgram_ID.
  - destruct H as [p ->]. apply Hnames. intros s.
    unfold ChangeStudyProgram. by destruct (_ !! _).
Qed.

Lemma ModifyStudent_frame_witness :
  exists sm',
    ModifyStudent NewInMemoryStudentManager "Afis"
      (ChangeStudyProgram NewInMemoryStudentManager "TK")
    = Some (Ok modifyMessage, sm') /\
    map ID (students sm') = ["A12345"; "B21313"; "A34555"] /\
    map StudyProgram (students sm') = ["TI"; "TK"; "TK"].
Proof.
  eexists. split; [reflexivity|].
  destruct (ModifyStudent_frame NewInMemoryStudentManager "Afis"
              (ChangeStudyProgram NewInMemoryStudentManager "TK") _ _ eq_refl)
    as (_ & _ & _ & _ & Hids).
  destruct Hids as [Hids _]; [by exists "TK"|].
  split; [exact Hids | reflexivity].
Defined.

Lemma ChangeStudyProgram_loop_twice sm programStudi name l :
  ModifyStudent_loop name (ChangeStudyProgram sm programStudi)
    (snd (ModifyStudent_loop name (ChangeStudyProgram sm programStudi) l))
  = ModifyStudent_loop name (ChangeStudyProgram sm programStudi) l.
Proof.
  induction l as [|x l IH]; cbn; [done|].
  destruct (decide (Name x = name)) as [Hx|Hx].
  - unfold ChangeStudyProgram at 2 3.
    destruct (studentStudyPrograms sm !! programStudi) as [p|] eqn:Hcat; cbn;
      rewrite decide_True by done; unfold ChangeStudyProgram; by rewrite Hcat.
  - destruct (ModifyStudent_loop name _ l) as [r l'] eqn:Hl. cbn in *.
    rewrite decide_False by done. by rewrite IH.
Qed.

(** X11: changing the program of a student twice to the same code gives
    the result and the manager of the first change. *)
Theorem ChangeStudyProgram_twice sm name programStudi r sm1 :
  ModifyStudent sm name (ChangeStudyProgram sm programStudi) = Some (r, sm1) ->
  ModifyStudent sm1 name (ChangeStudyProgram sm1 programStudi) = Some (r, sm1).
Proof.
  intros H. apply ModifyStudent_Some in H as [Hmu Hbody].
  unfold ModifyStudent_body in Hbody.
  pose proof (ChangeStudyProgram_loop_twice sm programStudi name (students sm))
    as Htwice.
  destruct (ModifyStudent_loop name (ChangeStudyProgram sm programStudi)
              (students sm)) as [r' l] eqn:Hloop.
  injection Hbody as -> <-. cbn in Htwice.
  rewrite ModifyStudent_free by done. unfold ModifyStudent_body. cbn.
  change (ChangeStudyProgram (set_students l sm) programStudi)
    with (ChangeStudyProgram sm programStudi).
  by rewrite Htwice.
Qed.

Lemma ChangeStudyProgram_twice_witness :
  exists sm1,
    ModifyStudent NewInMemoryStudentManager "Dito"
      (ChangeStudyProgram NewInMemoryStudentManager "SI")
    = Some (Ok modifyMessage, sm1) /\
    ModifyStudent sm1 "Dito" (ChangeStudyProgram sm1 "SI")
    = Some (Ok modifyMessage, sm1).
Proof.
  eexists. split; [reflexivity|].
  apply (ChangeStudyProgram_twice NewInMemoryStudentManager "Dito" "SI").
  reflexivity.
Defined.

(** ** A clean import *)

Lemma concat_Permutation {A} (l1 l2 : list (list A)) :
  Permutation l1 l2 -> Permutation (concat l1) (concat l2).
Proof.
  induction 1 as [|x l1 l2 _ IH|x y l|l1 l2 l3 _ IH1 _ IH2]; cbn.
  - done.
  - by apply Permutation_app_head.
  - rewrite !app_assoc. apply Permutation_app_tail, Permutation_app_comm.
  - by transitivity (concat l2).
Qed.

Lemma ImportStudents_batch_fresh batch :
  forall sm,
    Forall (validStudent (studentStudyPrograms sm)) batch ->
    NoDup (map ID (students sm ++ batch)) ->
    ImportStudents_batch sm batch = (None, withRegistered batch sm).
Proof.
  induction batch as [|st batch IH]; intros sm Hvalid Hnd; cbn.
  - by rewrite withRegistered_nil.
  - apply Forall_cons in Hvalid as [(Hid & Hname & Hprog & [p Hp]) Hvalid].
    assert (~ In (ID st) (map ID (students sm))) as Hfresh.
    { rewrite map_app in Hnd. cbn in Hnd. apply NoDup_app in Hnd as (_ & Hd & _).
      intros Hin. apply (Hd (ID st)); [by apply list_elem_of_In|].
      by apply elem_of_cons; left. }
    assert (Register sm (ID st) (Name st) (StudyProgram st)
            = (Ok (registerMessage st), withRegistered [st] sm)) as ->.
    { unfold Register. rewrite decide_False by tauto. rewrite Hp.
      apply idUsed_false in Hfresh. rewrite Hfresh. by destruct st. }
    rewrite IH.
    + by rewrite withRegistered_app.
    + done.
    + cbn. by rewrite <- app_assoc.
Qed.

(** X12: when the records of the readable sources are all valid and their
    IDs are distinct and new, the import returns nil in every order of
    arrival, and the collection grows by exactly these records, each batch
    in its order. *)
Theorem ImportStudents_clean fs sm filenames out :
  Forall (validStudent (studentStudyPrograms sm))
         (concat (sentBatches fs filenames)) ->
  NoDup (map ID (students sm ++ concat (sentBatches fs filenames))) ->
  ImportStudents fs sm filenames out ->
  exists received,
    Permutation received (sentBatches fs filenames) /\
    out = (None, withRegistered (concat received) sm) /\
    length (students (snd out))
    = (length (students sm) + length (concat (sentBatches fs filenames)))%nat.
Proof.
  intros Hvalid Hnd (received & Hperm & <-).
  pose proof (concat_Permutation _ _ Hperm) as Hcat.
  exists received. split; [done|].
  rewrite ImportStudents_consume_concat, ImportStudents_batch_fresh.
  - split; [done|]. cbn. rewrite length_app. by rewrite (Permutation_length Hcat).
  - by rewrite Hcat.
  - by rewrite Hcat.
Qed.

Lemma ImportStudents_clean_witness :
  ImportStudents cleanFiles NewInMemoryStudentManager ["x.csv"; "y.csv"]
    (None,
     withRegistered [ mkStudent "H00001" "Hana" "MI";
                      mkStudent "F00001" "Fajar" "TI";
                      mkStudent "G00001" "Gita" "SI" ]
       NewInMemoryStudentManager) /\
  length (students
            (withRegistered [ mkStudent "H00001" "Hana" "MI";
                              mkStudent "F00001" "Fajar" "TI";
                              mkStudent "G00001" "Gita" "SI" ]
               NewInMemoryStudentManager)) = 6%nat.
Proof.
  assert (ImportStudents cleanFiles NewInMemoryStudentManager ["x.csv"; "y.csv"]
            (None,
             withRegistered [ mkStudent "H00001" "Hana" "MI";
                              mkStudent "F00001" "Fajar" "TI";
                              mkStudent "G00001" "Gita" "SI" ]
               NewInMemoryStudentManager)) as Himport.
  { exists [[mkStudent "H00001" "Hana" "MI"];
            [mkStudent "F00001" "Fajar" "TI"; mkStudent "G00001" "Gita" "SI"]].
    split; [apply perm_swap | reflexivity]. }
  split; [exact Himport|].
  assert (Forall (validStudent (studentStudyPrograms NewInMemoryStudentManager))
            (concat (sentBatches cleanFiles ["x.csv"; "y.csv"]))) as Hvalid.
  { repeat (constructor; [repeat split; cbn; try discriminate; by eexists|]).
    constructor. }
  assert (NoDup (map ID (students NewInMemoryStudentManager
                         ++ concat (sentBatches cleanFiles ["x.csv"; "y.csv"]))))
    as Hnd.
  { cbn. compute_done. }
  destruct (ImportStudents_clean cleanFiles NewInMemoryStudentManager
              ["x.csv"; "y.csv"] _ Hvalid Hnd Himport)
    as (received & _ & _ & Hlen).
  exact Hlen.
Defined.

(** ** When a login succeeds *)

Lemma Login_Some sm id name r sm' :
  Login sm id name = Some (r, sm') ->
  mu sm = false /\ Login_body id name sm = (r, sm').
Proof.
  intros H. destruct (mu sm) eqn:Hmu.
  - unfold Login in H. by rewrite locked_held in H.
  - rewrite Login_free in H by done. split; congruence.
Qed.

(** X13: with unique IDs, [Login] succeeds exactly when id and name are
    non-empty, the counter of the id is below 3, and a record has this id
    and this name. *)
Theorem Login_success_iff sm id name :
  mu sm = false ->
  NoDup (map ID (students sm)) ->
  (exists msg sm', Login sm id name = Some (Ok msg, sm')) <->
  (id <> "" /\ name <> "" /\ attempts sm id < 3 /\
   exists st, In st (students sm) /\ ID st = id /\ Name st = name).
Proof.
  intros Hmu Hnd. rewrite Login_free by done. unfold Login_body.
  rewrite lockedOut_attempts, Login_loop_first. split.
  - intros (msg & sm' & H).
    destruct (decide (id = "")); [done|]. destruct (decide (name = "")); [done|].
    case_bool_decide; [done|].
    destruct (firstWithID id (students sm)) as [st|] eqn:Hfirst; [|done].
    destruct (decide (Name st = name)); [|done].
    apply firstWithID_In in Hfirst as [Hin Hid].
    repeat split; try done; [lia|]. by exists st.
  - intros (Hid & Hname & Hlt & st & Hin & Hst & Hn).
    rewrite !decide_False by done. rewrite bool_decide_eq_false_2 by lia.
    rewrite <- Hst, (firstWithID_unique _ st Hnd Hin).
    rewrite decide_True by done. by eexists _, _.
Qed.

Lemma Login_success_iff_witness :
  exists msg sm', Login NewInMemoryStudentManager "B21313" "Dito" = Some (Ok msg, sm').
Proof.
  apply (Login_success_iff NewInMemoryStudentManager "B21313" "Dito");
    [reflexivity | cbn; compute_done |].
  split; [discriminate|]. split; [discriminate|]. split; [vm_compute; reflexivity|].
  exists (mkStudent "B21313" "Dito" "TK"). split; [right; left; reflexivity|].
  split; reflexivity.
Defined.

(** ** A changed program shows at the next login *)

Lemma ModifyStudent_loop_Ok name fn l msg l' :
  ModifyStudent_loop name fn l = (Ok msg, l') ->
  exists pre st post,
    l = pre ++ st :: post /\
    (forall x, In x pre -> Name x <> name) /\
    Name st = name /\
    snd (fn st) = None /\
    l' = pre ++ fst (fn st) :: post.
Proof.
  revert l'. induction l as [|x l IH]; intros l' H; cbn in H; [done|].
  destruct (decide (Name x = name)) as [Hx|Hx].
  - destruct (fn x) as [x' [e|]] eqn:Hfn; [done|]. injection H as _ <-.
    exists [], x, l. rewrite Hfn. by repeat split.
  - destruct (ModifyStudent_loop name fn l) as [r l1]. injection H as -> <-.
    destruct (IH l1 eq_refl) as (pre & st & post & -> & Hpre & Hst & Hfn & ->).
    exists (x :: pre), st, post. repeat split; try done.
    intros y [<-|Hy]; [done|]. by apply Hpre.
Qed.

Lemma firstWithID_middle pre st post st' :
  NoDup (map ID (pre ++ st :: post)) -> ID st' = ID st ->
  firstWithID (ID st) (pre ++ st' :: post) = Some st'.
Proof.
  intros Hnd Hid. induction pre as [|x pre IH]; cbn in *.
  - by rewrite bool_decide_eq_true_2.
  - apply NoDup_cons in Hnd as [Hx Hnd].
    rewrite bool_decide_eq_false_2; [by apply IH|].
    intros Heq. apply Hx. rewrite Heq, map_app. apply elem_of_app. right.
    by apply elem_of_cons; left.
Qed.

(** X14: after a successful [ModifyStudent] with [ChangeStudyProgram], the
    student whose program was changed logs in with the catalog's name of the
    new program. *)
Theorem ChangeStudyProgram_then_Login sm name programStudi sm1 :
  NoDup (map ID (students sm)) ->
  ModifyStudent sm name (ChangeStudyProgram sm programStudi)
  = Some (Ok modifyMessage, sm1) ->
  exists st program,
    In st (students sm) /\ Name st = name /\
    studentStudyPrograms sm !! programStudi = Some program /\
    (ID st <> "" -> name <> "" -> attempts sm (ID st) < 3 ->
     Login sm1 (ID st) name
     = Some (Ok ("Login berhasil: Selamat datang " +:+ name
                 +:+ "! Kamu terdaftar di program studi: " +:+ program),
             set_attempts (ID st) 0 sm1)).
Proof.
  intros Hnd H. apply ModifyStudent_Some in H as [Hmu Hbody].
  unfold ModifyStudent_body in Hbody.
  destruct (ModifyStudent_loop name (ChangeStudyProgram sm programStudi)
              (students sm)) as [r l] eqn:Hloop.
  injection Hbody as -> <-.
  destruct (ModifyStudent_loop_Ok _ _ _ _ _ Hloop)
    as (pre & st & post & Hst & Hpre & Hname & Hfn & ->).
  unfold ChangeStudyProgram in Hfn |- *.
  destruct (studentStudyPrograms sm !! programStudi) as [program|] eqn:Hcat;
    [|done].
  exists st, program. split; [rewrite Hst; apply in_or_app; right; by left|].
  split; [done|]. split; [done|]. intros Hid Hne Hlt.
  rewrite Login_free by done. unfold Login_body.
  rewrite !decide_False by done. rewrite lockedOut_attempts.
  rewrite bool_decide_eq_false_2 by (unfold attempts in *; cbn; lia).
  rewrite Login_loop_first. cbn [students set_students fst].
  rewrite Hst in Hnd. rewrite (firstWithID_middle pre st post _ Hnd) by done.
  cbn. rewrite decide_True by done.
  unfold loginMessage, programName. cbn. by rewrite Hcat, Hname.
Qed.

Lemma ChangeStudyProgram_then_Login_witness :
  Login (set_students [ mkStudent "A12345" "Aditira" "TI";
                        mkStudent "B21313" "Dito" "SI";
                        mkStudent "A34555" "Afis" "MI" ]
           NewInMemoryStudentManager) "B21313" "Dito"
  = Some (Ok "Login berhasil: Selamat datang Dito! Kamu terdaftar di program studi: Sistem Informasi",
          set_attempts "B21313" 0
            (set_students [ mkStudent "A12345" "Aditira" "TI";
                            mkStudent "B21313" "Dito" "SI";
                            mkStudent "A34555" "Afis" "MI" ]
               NewInMemoryStudentManager)).
Proof.
  destruct (ChangeStudyProgram_then_Login NewInMemoryStudentManager "Dito" "SI"
              (set_students [ mkStudent "A12345" "Aditira" "TI";
                              mkStudent "B21313" "Dito" "SI";
                              mkStudent "A34555" "Afis" "MI" ]
                 NewInMemoryStudentManager))
    as (st & program & Hin & Hname & Hcat & HL);
    [cbn; compute_done | reflexivity |].
  vm_compute in Hcat. injection Hcat as <-.
  destruct Hin as [<-|[<-|[<-|[]]]]; try discriminate Hname.
  apply HL; [discriminate | discriminate | vm_compute; reflexivity].
Defined.

(** ** The output and the queue of the worker pool *)

Section WorkerPoolOutput.
Local Open Scope nat_scope.

Lemma pool_returned_stuck n s s' :
  pool_inv n s -> main s = Returned -> ~ pool_step n s s'.
Proof.
  intros Hinv Hm Hstep.
  pose proof (inv_closed n s Hinv (inv_returned n s Hinv Hm)) as Hall.
  destruct Hstep as [s i Hmi _ _ | s i Hmi _ | s w j rest Hw _
                    | s w Hw _ _ | s w j Hw | s w j Hw _
                    | s Hmd _ _ | s elapsed Hmd _];
    try congruence;
    by pose proof (Forall_lookup_1 _ _ _ _ Hall Hw).
Qed.

Lemma results_of_lines rs : omap resultOf (map ResultLine rs) = rs.
Proof. induction rs as [|r rs IH]; [done|]. cbn. by rewrite IH. Qed.

Lemma pool_output_init n : pool_output n SubmitAssignments_init.
Proof.
  constructor; cbn; try done.
  by exists 1.
Qed.

Lemma pool_output_step n s s' :
  pool_inv n s -> pool_output n s -> pool_step n s s' -> pool_output n s'.
Proof.
  intros Hinv [HW HF HR HT [a HQ]] Hstep.
  assert (main s <> Returned) as Hrun.
  { intros Hret. by destruct (pool_returned_stuck n s s' Hinv Hret). }
  specialize (HR Hrun).
  destruct Hstep as [s i Hm Hi Hlen | s i Hm Hi | s w j rest Hw Hj
                    | s w Hw Hj Hm | s w j Hw | s w j Hw Hm
                    | s Hm Hall Hrc | s elapsed Hm Hrc];
    constructor; unfold results in *; simpl in *; try done;
    try (intros; congruence).
  - intros i' _. by apply (HF i).
  - exists a. rewrite <- HQ, Hm. simpl.
    replace (S n - i) with (S (n - i)) by lia. simpl. by rewrite <- app_assoc.
  - exists a. rewrite <- HQ, Hm. simpl. by replace (S n - i) with 0 by lia.
  - rewrite Hj in HQ. simpl in HQ.
    destruct (S n - a) as [|k] eqn:Hk; [done|]. simpl in HQ.
    injection HQ as -> HQ. exists (S a). rewrite HQ. f_equal. lia.
  - by exists a.
  - by exists a.
  - rewrite results_result. apply Forall_app. split; [done|].
    constructor; [|done]. simpl.
    pose proof (lookup_lt_Some _ _ _ Hw) as Hlt.
    rewrite (inv_workers n s Hinv) in Hlt. unfold workerCount in *. lia.
  - intros _. rewrite results_result, map_app. simpl. by rewrite <- HR.
  - by exists a.
  - by exists a.
  - by rewrite results_timing.
  - intros _. exists elapsed. rewrite results_timing. by rewrite <- HR.
  - exists a. by rewrite Hm in HQ.
Qed.

Lemma pool_steps_output n s :
  pool_steps n SubmitAssignments_init s -> pool_inv n s /\ pool_output n s.
Proof.
  intros Hsteps. remember SubmitAssignments_init as s0 eqn:Hs0.
  induction Hsteps as [s1|s1 s2 s3 _ IH Hstep]; subst.
  - split; [apply pool_inv_init | apply pool_output_init].
  - destruct (IH eq_refl) as [IHi IHo].
    split; [by apply (pool_inv_step n s2) | by apply (pool_output_step n s2)].
Qed.

(** X15: in every state of every execution the printed results come from
    workers 1 to 4, report assignments between 1 and n, and no assignment is
    reported twice. *)
Theorem results_well_formed n s :
  pool_steps n SubmitAssignments_init s ->
  Forall (fun r => 1 <= worker r <= workerCount /\ 1 <= assignment r <= n)
         (results s) /\
  NoDup (map assignment (results s)).
Proof.
  intros Hsteps. destruct (pool_steps_output n s Hsteps) as [Hinv Hout].
  pose proof (inv_jobs n s Hinv) as Hperm. unfold accounted in Hperm.
  assert (NoDup (map assignment (results s))) as Hnd.
  { pose proof (NoDup_seq 1 n) as Hseq. rewrite <- Hperm in Hseq.
    apply NoDup_app in Hseq as (_ & _ & Hseq).
    apply NoDup_app in Hseq as (_ & _ & Hseq).
    by apply NoDup_app in Hseq as (_ & _ & Hseq). }
  split; [|done].
  pose proof (out_workers n s Hout) as Hw.
  apply Forall_forall. intros r Hr. split.
  - by apply (proj1 (Forall_forall _ _) Hw).
  - assert (assignment r ∈ seq 1 n) as Hin.
    { rewrite <- Hperm. rewrite !elem_of_app. right; right; right.
      apply list_elem_of_In, in_map. by apply list_elem_of_In. }
    apply elem_of_seq in Hin. lia.
Qed.

Lemma results_well_formed_witness :
  NoDup (map assignment
           (results (pool_run 8 (80 * millisecond) 20 SubmitAssignments_init))) /\
  length (results (pool_run 8 (80 * millisecond) 20 SubmitAssignments_init)) = 3.
Proof.
  split; [|reflexivity].
  apply (results_well_formed 8), pool_run_steps.
Defined.

(** X16: when [SubmitAssignments] has returned, every worker has exited,
    the queue is empty, the results channel is closed, and no goroutine can
    take a step. *)
Theorem returned_is_quiescent n s :
  pool_steps n SubmitAssignments_init s ->
  main s = Returned ->
  Forall (fun ws => ws = Exited) (workers s) /\
  jobs s = [] /\
  resultsClosed s = true /\
  forall s', ~ pool_step n s s'.
Proof.
  intros Hsteps Hm. destruct (pool_steps_output n s Hsteps) as [Hinv _].
  pose proof (inv_returned n s Hinv Hm) as Hrc.
  pose proof (inv_closed n s Hinv Hrc) as Hall.
  split; [done|]. split; [|split; [done|]].
  - apply (inv_exited n s Hinv).
    pose proof (inv_workers n s Hinv) as Hlen.
    destruct (workers s) as [|x l]; [done|].
    apply Forall_cons in Hall as [-> _]. by apply elem_of_cons; left.
  - intros s'. by apply pool_returned_stuck.
Qed.

Lemma returned_is_quiescent_witness :
  workers (pool_run 8 (80 * millisecond) 39 SubmitAssignments_init)
  = [Exited; Exited; Exited; Exited] /\
  jobs (pool_run 8 (80 * millisecond) 39 SubmitAssignments_init) = [].
Proof.
  destruct (returned_is_quiescent 8
              (pool_run 8 (80 * millisecond) 39 SubmitAssignments_init))
    as (_ & Hjobs & _); [apply pool_run_steps | reflexivity |].
  split; [reflexivity | exact Hjobs].
Defined.

(** X17: at the return the output is the n result lines followed by the
    timing line and at most one warning. *)
Theorem stdout_at_return n s :
  pool_steps n SubmitAssignments_init s ->
  main s = Returned ->
  exists elapsed,
    stdout s = map ResultLine (results s) ++ timingLines n elapsed /\
    length (results s) = n /\
    (length (stdout s) = n + 1 \/ length (stdout s) = n + 2).
Proof.
  intros Hsteps Hm. destruct (pool_steps_output n s Hsteps) as [Hinv Hout].
  destruct (out_returned n s Hout Hm) as [elapsed Hstd].
  destruct (pool_inv_returned n s Hinv Hm) as [Hperm _].
  apply Permutation_length in Hperm. rewrite length_map, length_seq in Hperm.
  exists elapsed. split; [done|]. split; [done|].
  rewrite Hstd, length_app, length_map, Hperm. unfold timingLines.
  repeat case_bool_decide; simpl; lia.
Qed.

Lemma stdout_at_return_witness :
  stdout (pool_run 2 (80 * millisecond) 15 SubmitAssignments_init)
  = [ResultLine (mkJobResult 1 1); ResultLine (mkJobResult 1 2);
     TookLine 2 (80 * millisecond); WarnFast].
Proof.
  destruct (stdout_at_return 2
              (pool_run 2 (80 * millisecond) 15 SubmitAssignments_init))
    as (elapsed & Hstd & _); [apply pool_run_steps | reflexivity |].
  reflexivity.
Defined.

Lemma held_length (l : list workerState) : length (omap held l) <= length l.
Proof.
  induction l as [|x l IH]; [done|].
  unfold omap in *. destruct x; simpl; lia.
Qed.

(** X18: while the caller is still filling the queue nothing is printed:
    every job sent so far is in the queue or with one of the four workers. *)
Theorem nothing_printed_while_filling n s i :
  pool_steps n SubmitAssignments_init s ->
  main s = Filling i ->
  stdout s = [] /\
  length (omap held (workers s)) <= workerCount /\
  length (jobs s) + length (omap held (workers s))
  + length (unsent n (main s)) = n.
Proof.
  intros Hsteps Hm. destruct (pool_steps_output n s Hsteps) as [Hinv Hout].
  pose proof (out_filling n s Hout i Hm) as Hstd. split; [done|].
  pose proof (inv_jobs n s Hinv) as Hperm. unfold accounted, results in Hperm.
  rewrite Hstd, Hm in Hperm. simpl in Hperm. rewrite app_nil_r in Hperm.
  apply Permutation_length in Hperm.
  rewrite !length_app, !length_seq in Hperm.
  split; [|rewrite Hm; simpl; rewrite length_seq; lia].
  rewrite <- (inv_workers n s Hinv). apply held_length.
Qed.

Lemma nothing_printed_while_filling_witness :
  main (pool_run 8 (80 * millisecond) 5 SubmitAssignments_init) = Filling 6 /\
  stdout (pool_run 8 (80 * millisecond) 5 SubmitAssignments_init) = [] /\
  jobs (pool_run 8 (80 * millisecond) 5 SubmitAssignments_init) = [1; 2; 3; 4; 5].
Proof.
  split; [reflexivity|].
  destruct (nothing_printed_while_filling 8
              (pool_run 8 (80 * millisecond) 5 SubmitAssignments_init) 6)
    as (Hstd & _); [apply pool_run_steps | reflexivity |].
  split; [exact Hstd | reflexivity].
Defined.

(** X19: the queue followed by the jobs still to send is always a run of
    consecutive numbers ending at n, so the workers receive the jobs in
    increasing order. *)
Theorem queue_in_order n s :
  pool_steps n SubmitAssignments_init s ->
  exists a, jobs s ++ unsent n (main s) = seq a (S n - a).
Proof.
  intros Hsteps. destruct (pool_steps_output n s Hsteps) as [_ Hout].
  apply (out_queue n s Hout).
Qed.

Lemma queue_in_order_witness :
  exists a,
    jobs (pool_run 8 (80 * millisecond) 12 SubmitAssignments_init)
    ++ unsent 8 (main (pool_run 8 (80 * millisecond) 12 SubmitAssignments_init))
    = seq a (9 - a).
Proof. apply (queue_in_order 8), pool_run_steps. Defined.

End WorkerPoolOutput.
